(** * Node-agent reconciler: defaults merging and the resource pipeline

    Shallow embedding of [pkg/resources/nodeagent/nodeagent.go]:
    the three defaults profiles, the top-level [Reconcile] loop over the
    node-agent entries of a [Logging] resource, the per-instance
    [Reconcile] loop over the ordered resource factories, and the naming
    helpers [QualifiedName] and [getServiceAccount].

    Go pointers are [option]s ([None] is nil), Go maps are [gmap]s, slices
    are lists, and the integer fields are [Z].  Calls to collaborators
    (mergo, the resource factories, the generic resource reconciler) are
    recorded in a list of [Event]s so that statements about which calls a
    pass makes can be stated. *)

From Stdlib Require Import Ascii.
From stdpp Require Import base strings gmap list.

Open Scope string_scope.
Open Scope Z_scope.
Open Scope list_scope.

(** ** Kubernetes core types, as far as the defaults literals use them *)

Module v1.

(** [resource.Quantity], kept as the text [resource.MustParse] is given. *)
Definition Quantity := string.
Definition MustParse (s : string) : Quantity := s.

Definition ResourceMemory : string := "memory".
Definition ResourceCPU : string := "cpu".
Definition PullIfNotPresent : string := "IfNotPresent".

Record ResourceRequirements := {
  Limits : gmap string Quantity;
  Requests : gmap string Quantity;
}.

(** [intstr.IntOrString] *)
Record IntOrString := { IntVal : Z; StrVal : string }.

Record HTTPGetAction := { Path : string; Port : IntOrString }.

Record Handler := { HTTPGet : option HTTPGetAction }.

Record Probe := {
  ProbeHandler : Handler;
  InitialDelaySeconds : Z;
  TimeoutSeconds : Z;
  PeriodSeconds : Z;
  SuccessThreshold : Z;
  FailureThreshold : Z;
}.

Record Container := {
  Name : string;
  Image : string;
  ImagePullPolicy : string;
  Resources : ResourceRequirements;
  LivenessProbe : option Probe;
}.

Record Toleration := {
  Key : string;
  Operator : string;
  Value : string;
  Effect : string;
}.

(** Both security contexts only occur as the empty literal [&T{}]. *)
Inductive SecurityContext := EmptySecurityContext.
Inductive PodSecurityContext := EmptyPodSecurityContext.

End v1.

(** ** operator-tools [typeoverride] *)

Module typeoverride.

Record ObjectMeta := { Labels : gmap string string }.

Record PodSpec := {
  Containers : list v1.Container;
  NodeSelector : gmap string string;
  Tolerations : list v1.Toleration;
}.

Record PodTemplateSpec := { PodTemplateSpec_Spec : PodSpec }.

Record DaemonSetSpec := { Template : PodTemplateSpec }.

Record DaemonSet := { Spec : DaemonSetSpec }.

End typeoverride.

(** ** The API types of the operator *)

Module v1beta1.

Record InputTail := {
  Path : string;
  RefreshInterval : string;
  SkipLongLines : string;
  DB : option string;
  MemBufLimit : string;
  Tag : string;
}.

Record Security := {
  ServiceAccount : string;
  RoleBasedAccessControlCreate : option bool;
  SecurityContext : option v1.SecurityContext;
  PodSecurityContext : option v1.PodSecurityContext;
}.

Record BufferStorage := { StoragePath : string }.

Record FilterAws := {
  ImdsVersion : string;
  AZ : option bool;
  Ec2InstanceID : option bool;
  Ec2InstanceType : option bool;
  PrivateIP : option bool;
  AmiID : option bool;
  AccountID : option bool;
  Hostname : option bool;
  VpcID : option bool;
  Match : string;
}.

Record ForwardOptions := { RetryLimit : string }.

Record NodeAgentFluentbit := {
  DaemonSetOverrides : option typeoverride.DaemonSet;
  Flush : Z;
  Grace : Z;
  LogLevel : string;
  CoroStackSize : Z;
  InputTail_ : InputTail;
  Security_ : option Security;
  MountPath : string;
  BufferStorage_ : BufferStorage;
  FilterAws_ : option FilterAws;
  ForwardOptions_ : option ForwardOptions;
}.

Record NodeAgent := {
  Name : string;
  Type_ : string;
  Metadata : typeoverride.ObjectMeta;
  FluentbitSpec : option NodeAgentFluentbit;
}.

(** [Logging], reduced to what this package reads: the object's name and
    the declared node-agent entries ([Spec.NodeAgents]). *)
Record Logging := {
  LoggingName : string;
  NodeAgents : list NodeAgent;
}.

End v1beta1.

(** Go zero values of the struct types above. *)
Module zero.
Definition ObjectMeta : typeoverride.ObjectMeta :=
  {| typeoverride.Labels := ∅ |}.
Definition InputTail : v1beta1.InputTail :=
  {| v1beta1.Path := ""; v1beta1.RefreshInterval := "";
     v1beta1.SkipLongLines := ""; v1beta1.DB := None;
     v1beta1.MemBufLimit := ""; v1beta1.Tag := "" |}.
Definition BufferStorage : v1beta1.BufferStorage :=
  {| v1beta1.StoragePath := "" |}.
Definition NodeAgentFluentbit : v1beta1.NodeAgentFluentbit :=
  {| v1beta1.DaemonSetOverrides := None;
     v1beta1.Flush := 0; v1beta1.Grace := 0; v1beta1.LogLevel := "";
     v1beta1.CoroStackSize := 0;
     v1beta1.InputTail_ := InputTail;
     v1beta1.Security_ := None;
     v1beta1.MountPath := "";
     v1beta1.BufferStorage_ := BufferStorage;
     v1beta1.FilterAws_ := None;
     v1beta1.ForwardOptions_ := None |}.
Definition NodeAgent : v1beta1.NodeAgent :=
  {| v1beta1.Name := ""; v1beta1.Type_ := "";
     v1beta1.Metadata := ObjectMeta;
     v1beta1.FluentbitSpec := None |}.
End zero.

(** ** Constants and the defaults profiles *)

Definition defaultServiceAccountName : string := "fluentbit".
Definition containerName : string := "fluent-bit".

(** [util.StringPointer], [util.BoolPointer] *)
Definition StringPointer (s : string) : option string := Some s.
Definition BoolPointer (b : bool) : option bool := Some b.

Definition NodeAgentFluentbitDefaults : v1beta1.NodeAgent :=
  {| v1beta1.Name := ""; v1beta1.Type_ := "";
     v1beta1.Metadata := zero.ObjectMeta;
     v1beta1.FluentbitSpec := Some
       {| v1beta1.DaemonSetOverrides := Some
            {| typeoverride.Spec :=
               {| typeoverride.Template :=
                  {| typeoverride.PodTemplateSpec_Spec :=
                     {| typeoverride.Containers :=
                          [ {| v1.Name := containerName;
                               v1.Image := "fluent/fluent-bit:1.6.8";
                               v1.ImagePullPolicy := v1.PullIfNotPresent;
                               v1.Resources :=
                                 {| v1.Limits :=
                                      <[v1.ResourceMemory := v1.MustParse "100M"]>
                                      (<[v1.ResourceCPU := v1.MustParse "200m"]> ∅);
                                    v1.Requests :=
                                      <[v1.ResourceMemory := v1.MustParse "50M"]>
                                      (<[v1.ResourceCPU := v1.MustParse "100m"]> ∅) |};
                               v1.LivenessProbe := Some
                                 {| v1.ProbeHandler :=
                                      {| v1.HTTPGet := Some
                                           {| v1.Path := "/api/v1/metrics/prometheus";
                                              v1.Port := {| v1.IntVal := 2020;
                                                            v1.StrVal := "" |} |} |};
                                    v1.InitialDelaySeconds := 10;
                                    v1.TimeoutSeconds := 0;
                                    v1.PeriodSeconds := 10;
                                    v1.SuccessThreshold := 0;
                                    v1.FailureThreshold := 3 |} |} ];
                        typeoverride.NodeSelector := ∅;
                        typeoverride.Tolerations := [] |} |} |} |};
          v1beta1.Flush := 1;
          v1beta1.Grace := 5;
          v1beta1.LogLevel := "info";
          v1beta1.CoroStackSize := 24576;
          v1beta1.InputTail_ :=
            {| v1beta1.Path := "/var/log/containers/*.log";
               v1beta1.RefreshInterval := "5";
               v1beta1.SkipLongLines := "On";
               v1beta1.DB := StringPointer "/tail-db/tail-containers-state.db";
               v1beta1.MemBufLimit := "5MB";
               v1beta1.Tag := "kubernetes.*" |};
          v1beta1.Security_ := Some
            {| v1beta1.ServiceAccount := "";
               v1beta1.RoleBasedAccessControlCreate := BoolPointer true;
               v1beta1.SecurityContext := Some v1.EmptySecurityContext;
               v1beta1.PodSecurityContext := Some v1.EmptyPodSecurityContext |};
          v1beta1.MountPath := "/var/lib/docker/containers";
          v1beta1.BufferStorage_ := {| v1beta1.StoragePath := "/buffers" |};
          v1beta1.FilterAws_ := Some
            {| v1beta1.ImdsVersion := "v2";
               v1beta1.AZ := BoolPointer true;
               v1beta1.Ec2InstanceID := BoolPointer true;
               v1beta1.Ec2InstanceType := BoolPointer false;
               v1beta1.PrivateIP := BoolPointer false;
               v1beta1.AmiID := BoolPointer false;
               v1beta1.AccountID := BoolPointer false;
               v1beta1.Hostname := BoolPointer false;
               v1beta1.VpcID := BoolPointer false;
               v1beta1.Match := "*" |};
          v1beta1.ForwardOptions_ := Some {| v1beta1.RetryLimit := "False" |} |} |}.

Definition NodeAgentFluentbitWindowsDefaults : v1beta1.NodeAgent :=
  {| v1beta1.Name := ""; v1beta1.Type_ := "";
     v1beta1.Metadata := zero.ObjectMeta;
     v1beta1.FluentbitSpec := Some
       {| v1beta1.DaemonSetOverrides := Some
            {| typeoverride.Spec :=
               {| typeoverride.Template :=
                  {| typeoverride.PodTemplateSpec_Spec :=
                     {| typeoverride.Containers := [];
                        typeoverride.NodeSelector :=
                          <["kubernetes.io/os" := "windows"]> ∅;
                        typeoverride.Tolerations :=
                          [ {| v1.Key := "os"; v1.Operator := "Equal";
                               v1.Value := "windows";
                               v1.Effect := "NoSchedule" |} ] |} |} |} |};
          v1beta1.Flush := 2;
          v1beta1.Grace := 0;
          v1beta1.LogLevel := "";
          v1beta1.CoroStackSize := 0;
          v1beta1.InputTail_ := zero.InputTail;
          v1beta1.Security_ := None;
          v1beta1.MountPath := "C:\ProgramData\docker";
          v1beta1.BufferStorage_ := zero.BufferStorage;
          v1beta1.FilterAws_ := None;
          v1beta1.ForwardOptions_ := None |} |}.

Definition NodeAgentFluentbitLinuxDefaults : v1beta1.NodeAgent :=
  {| v1beta1.Name := ""; v1beta1.Type_ := "";
     v1beta1.Metadata := zero.ObjectMeta;
     v1beta1.FluentbitSpec := Some
       {| v1beta1.DaemonSetOverrides := None;
          v1beta1.Flush := 3;
          v1beta1.Grace := 0;
          v1beta1.LogLevel := "";
          v1beta1.CoroStackSize := 0;
          v1beta1.InputTail_ := zero.InputTail;
          v1beta1.Security_ := None;
          v1beta1.MountPath := "";
          v1beta1.BufferStorage_ := zero.BufferStorage;
          v1beta1.FilterAws_ := None;
          v1beta1.ForwardOptions_ := None |} |}.

(** ** The merge primitive

    [mergo.Merge] is a third-party function; its code is not part of this
    package.  The reconciler below takes the merge as a parameter, and
    [mergo.Merge] is the instance the merge-related statements are settled
    against. *)

Module mergo.
Import v1beta1.

(** Modelled from the spec: the body of [mergo.Merge], which is not among
    the sources.  Scalar field: "if dst's value is the type's zero value,
    copy src's value; otherwise leave dst untouched". *)
Definition mergeScalar (dst src : string) : string :=
  if decide (dst = "") then src else dst.

(** Modelled from the spec: the pointer case of [mergo.Merge].  "If dst's
    reference is unset (nil/None), set it to a copy of src's value;
    otherwise leave untouched, and do not recurse into an already-set
    pointer's nested fields". *)
Definition mergePointer {A : Type} (dst src : option A) : option A :=
  match dst with
  | None => src
  | Some _ => dst
  end.

(** Modelled from the spec: the mapping case of [mergo.Merge].  "If dst's
    collection is empty/unset, replace it wholesale with a deep copy of
    src's; otherwise leave untouched (no element-wise union)". *)
Definition mergeMapping (dst src : gmap string string) : gmap string string :=
  if decide (dst = ∅) then src else dst.

(** Modelled from the spec: [mergo.Merge] at type [NodeAgent], one rule
    per field position of the shared shape; the value struct [Metadata]
    is a shape of its own with the one position [Labels]. *)
Definition mergeNodeAgent (dst src : NodeAgent) : NodeAgent :=
  {| Name := mergeScalar (Name dst) (Name src);
     Type_ := mergeScalar (Type_ dst) (Type_ src);
     Metadata :=
       {| typeoverride.Labels :=
            mergeMapping (typeoverride.Labels (Metadata dst))
                         (typeoverride.Labels (Metadata src)) |};
     FluentbitSpec := mergePointer (FluentbitSpec dst) (FluentbitSpec src) |}.

(** Modelled from the spec: [mergo.Merge(dst, src)] returns the updated
    [dst] and an error; the error "if dst and src do not share a
    compatible shape" cannot arise between two values of one type. *)
Definition Merge {E : Type} (dst src : NodeAgent) : NodeAgent * option E :=
  (mergeNodeAgent dst src, None).

(** The field positions of a [NodeAgent] that the merge visits, and what
    sits at each of them. *)
Inductive Field := FName | FType | FLabels | FFluentbitSpec.

Inductive FieldValue :=
| Scalar (s : string)
| Mapping (m : gmap string string)
| Pointer (p : option NodeAgentFluentbit).

Definition get (f : Field) (a : NodeAgent) : FieldValue :=
  match f with
  | FName => Scalar (Name a)
  | FType => Scalar (Type_ a)
  | FLabels => Mapping (typeoverride.Labels (Metadata a))
  | FFluentbitSpec => Pointer (FluentbitSpec a)
  end.

(** A field is set when it holds something other than its zero value. *)
Definition isSet (v : FieldValue) : bool :=
  match v with
  | Scalar s => bool_decide (s ≠ "")
  | Mapping m => bool_decide (m ≠ ∅)
  | Pointer p => bool_decide (p ≠ None)
  end.

(** [kept S S']: every field set in [S] holds the same value in [S']. *)
Definition kept (S S' : NodeAgent) : Prop :=
  ∀ f, isSet (get f S) = true → get f S' = get f S.

(** [filled S P S']: every field unset in [S] and set in [P] holds [P]'s
    value in [S']. *)
Definition filled (S P S' : NodeAgent) : Prop :=
  ∀ f, isSet (get f S) = false → isSet (get f P) = true →
       get f S' = get f P.

End mergo.

(** ** The merge primitive over a store

    In the values above a pointer is the value it points to: they say what
    a merged entry holds, not which memory holds it.  [Reconcile] hands the
    package-level pointers [NodeAgentFluentbitWindowsDefaults] and
    [NodeAgentFluentbitLinuxDefaults] to the merge as they are, so whether a
    merged entry shares memory with a profile is a question about
    addresses.  Here the [FluentbitSpec] pointer is an address into a store
    of cells, and a later mutation through a pointer is a write to its
    cell. *)

Module store.

Abbreviation loc := positive.

Abbreviation Store := (gmap positive v1beta1.NodeAgentFluentbit).

(** A [NodeAgent] whose [FluentbitSpec] pointer is an address. *)
Record NodeAgent := {
  Name : string;
  Type_ : string;
  Metadata : typeoverride.ObjectMeta;
  FluentbitSpec : option loc
}.

(** What an entry holds, read through the store: the value the rest of
    this development works with.  A pointer to no cell has no reading. *)
Definition view (h : Store) (a : NodeAgent) : option v1beta1.NodeAgent :=
  match FluentbitSpec a with
  | None =>
    Some {| v1beta1.Name := Name a; v1beta1.Type_ := Type_ a;
            v1beta1.Metadata := Metadata a; v1beta1.FluentbitSpec := None |}
  | Some p =>
    fb ← h !! p;
    Some {| v1beta1.Name := Name a; v1beta1.Type_ := Type_ a;
            v1beta1.Metadata := Metadata a;
            v1beta1.FluentbitSpec := Some fb |}
  end.

(** An address no cell of the store has. *)
Definition alloc (h : Store) : loc := fresh (dom h).

(** Modelled from the spec: the pointer case of [mergo.Merge] with
    addresses.  "If dst's reference is unset (nil/None), set it to a copy of
    src's value (deep-copied, not aliased — mutating the merged instance
    later must never mutate the shared default literal); otherwise leave
    untouched".  The copy is a new cell with the content of the source's
    cell. *)
Definition mergePointer (h : Store) (dst src : option loc)
    : Store * option loc :=
  match dst, src with
  | Some p, _ => (h, Some p)
  | None, None => (h, None)
  | None, Some p =>
    match h !! p with
    | Some fb => (<[alloc h := fb]> h, Some (alloc h))
    | None => (h, None)
    end
  end.

(** Modelled from the spec: [mergo.Merge] at type [NodeAgent] over a store,
    with the rules of [mergo.mergeNodeAgent] for the name, the type and the
    labels. *)
Definition Merge (h : Store) (dst src : NodeAgent) : Store * NodeAgent :=
  let hp := mergePointer h (FluentbitSpec dst) (FluentbitSpec src) in
  (hp.1,
   {| Name := mergo.mergeScalar (Name dst) (Name src);
      Type_ := mergo.mergeScalar (Type_ dst) (Type_ src);
      Metadata :=
        {| typeoverride.Labels :=
             mergo.mergeMapping (typeoverride.Labels (Metadata dst))
                                (typeoverride.Labels (Metadata src)) |};
      FluentbitSpec := hp.2 |}).

End store.

(** ** Reading nested fields of a node-agent spec *)

Definition podSpecOf (a : v1beta1.NodeAgent) : option typeoverride.PodSpec :=
  fb ← v1beta1.FluentbitSpec a;
  ds ← v1beta1.DaemonSetOverrides fb;
  Some (typeoverride.PodTemplateSpec_Spec
          (typeoverride.Template (typeoverride.Spec ds))).

Definition nodeSelectorOf (a : v1beta1.NodeAgent) : option (gmap string string) :=
  typeoverride.NodeSelector <$> podSpecOf a.

Definition flushOf (a : v1beta1.NodeAgent) : option Z :=
  v1beta1.Flush <$> v1beta1.FluentbitSpec a.

Definition logLevelOf (a : v1beta1.NodeAgent) : option string :=
  v1beta1.LogLevel <$> v1beta1.FluentbitSpec a.

Definition storagePathOf (a : v1beta1.NodeAgent) : option string :=
  (λ fb, v1beta1.StoragePath (v1beta1.BufferStorage_ fb)) <$> v1beta1.FluentbitSpec a.

Definition imagesOf (a : v1beta1.NodeAgent) : option (list string) :=
  (λ ps, v1.Image <$> typeoverride.Containers ps) <$> podSpecOf a.

(** ** Errors, factories and recorded calls *)

(** The resource factories of a node-agent instance, named as the methods
    the instance [Reconcile] lists. *)
Inductive Factory :=
| serviceAccount
| clusterRole
| clusterRoleBinding
| clusterPodSecurityPolicy
| pspClusterRole
| pspClusterRoleBinding
| configSecret
| daemonSet
| serviceMetrics
| monitorServiceMetrics.

Global Instance Factory_eq_dec : EqDecision Factory.
Proof. solve_decision. Defined.

(** [nodeAgentInstance]: the merged entry and the parent resource.  The
    [reconciler] handle and the [configs] scratch map are state of the
    collaborators and live in the world the calls act on. *)
Record nodeAgentInstance := {
  nodeAgent : v1beta1.NodeAgent;
  logging : v1beta1.Logging;
}.

Section Errors.
(** [schema.GroupVersionKind], the value of the "resource" detail. *)
Context {GroupVersionKind : Type}.

Inductive detail :=
| DetailString (s : string)
| DetailKind (k : GroupVersionKind).

(** Error values: those a collaborator hands back, and the ones built
    with [errors.Errorf], [errors.WrapIf] and [errors.WrapWithDetails]. *)
Inductive error :=
| Foreign (msg : string)
| Errorf (format : string) (arg : Factory)
| WrapIf (err : error) (message : string)
| WrapWithDetails (err : error) (message : string) (key : string) (value : detail).

(** The key/value details an error carries along its chain of wraps. *)
Fixpoint details (e : error) : list (string * detail) :=
  match e with
  | Foreign _ => []
  | Errorf _ _ => []
  | WrapIf err _ => details err
  | WrapWithDetails err _ key value => (key, value) :: details err
  end.
End Errors.
Global Arguments detail : clear implicits.
Global Arguments error : clear implicits.

(** ** Naming helpers *)

(** [fmt.Sprintf("%s-%s-%s", n.logging.Name, n.nodeAgent.Name, name)] *)
Definition QualifiedName (n : nodeAgentInstance) (name : string) : string :=
  v1beta1.LoggingName (logging n) +:+ "-" +:+
  v1beta1.Name (nodeAgent n) +:+ "-" +:+ name.

(** [getServiceAccount]; [None] is the nil-pointer panic of reading
    [n.nodeAgent.FluentbitSpec.Security.ServiceAccount] through a nil
    [FluentbitSpec] or [Security]. *)
Definition getServiceAccount (n : nodeAgentInstance) : option string :=
  fb ← v1beta1.FluentbitSpec (nodeAgent n);
  sec ← v1beta1.Security_ fb;
  if decide (v1beta1.ServiceAccount sec ≠ "")
  then Some (v1beta1.ServiceAccount sec)
  else Some (QualifiedName n defaultServiceAccountName).

(** ** The reconciler *)

Section Reconciler.
Import v1beta1.

(** [World]: the state the collaborators act on (the cluster and the
    reconciler's own scratch state).  [Object] is [runtime.Object],
    [DesiredState] is [reconciler.DesiredState], [Result] is
    [reconcile.Result]. *)
Context {World Object DesiredState Result GroupVersionKind : Type}.

Local Abbreviation error := (error GroupVersionKind).

(** [o.GetObjectKind().GroupVersionKind()] *)
Variable GroupVersionKindOf : Object → GroupVersionKind.

(** [mergo.Merge(dst, src)]: the updated [dst] and the error. *)
Variable Merge : NodeAgent → NodeAgent → NodeAgent * option error.

(** [factory()] for each of the listed methods: the desired object (nil
    is [None]), the desired state and the error. *)
Variable resource :
  Factory → nodeAgentInstance → World →
  (option Object * DesiredState * option error) * World.

(** [n.reconciler.ReconcileResource(o, state)] *)
Variable ReconcileResource :
  Object → DesiredState → World → (option Result * option error) * World.

(** Calls made to the collaborators, in the order they are made, each
    with what it returned. *)
Inductive Event :=
| MergeCall (dst src : NodeAgent) (dst' : NodeAgent) (err : option error)
| FactoryCall (n : nodeAgentInstance) (factory : Factory)
    (o : option Object) (state : DesiredState) (err : option error)
| ApplyCall (n : nodeAgentInstance) (o : Object) (state : DesiredState)
    (result : option Result) (err : option error).

(** The pair of a [reconcile.Result] pointer and an error that a
    [Reconcile] returns. *)
Definition Outcome : Type := option Result * option error.

(** The factory list of [nodeAgentInstance.Reconcile], in source order. *)
Definition factories : list Factory :=
  [ serviceAccount;
    clusterRole;
    clusterRoleBinding;
    clusterPodSecurityPolicy;
    pspClusterRole;
    pspClusterRoleBinding;
    configSecret;
    daemonSet;
    serviceMetrics;
    monitorServiceMetrics ].

(** The [for ... range] loop of [nodeAgentInstance.Reconcile] over the
    factories still to run. *)
Fixpoint reconcileResources (n : nodeAgentInstance) (fs : list Factory)
    (w : World) : Outcome * World * list Event :=
  match fs with
  | [] => ((None, None), w, [])
  | factory :: rest =>
    let '((o, state, err), w1) := resource factory n w in
    let ev1 := FactoryCall n factory o state err in
    match err with
    | Some err =>
      ((None, Some (WrapIf err "failed to create desired object")),
       w1, [ev1])
    | None =>
      match o with
      | None =>
        ((None,
          Some (Errorf "Reconcile error! Resource %#v returns with nil object"
                       factory)),
         w1, [ev1])
      | Some o =>
        let '((result, err), w2) := ReconcileResource o state w1 in
        let ev2 := ApplyCall n o state result err in
        match err with
        | Some err =>
          ((None,
            Some (WrapWithDetails err "failed to reconcile resource"
                    "resource" (DetailKind (GroupVersionKindOf o)))),
           w2, [ev1; ev2])
        | None =>
          match result with
          | Some result => ((Some result, None), w2, [ev1; ev2])
          | None =>
            let '(out, w3, evs) := reconcileResources n rest w2 in
            (out, w3, ev1 :: ev2 :: evs)
          end
        end
      end
    end
  end.

(** [(n *nodeAgentInstance) Reconcile()] *)
Definition nodeAgentInstance_Reconcile (n : nodeAgentInstance) (w : World)
    : Outcome * World * list Event :=
  reconcileResources n factories w.

(** The [switch a.Type] of the top-level loop: the second merge, with the
    Windows profile for "windows" and the Linux profile otherwise. *)
Definition mergePlatformDefaults (a : NodeAgent)
    : NodeAgent * option error * Event :=
  if decide (Type_ a = "windows") then
    let '(a', err) := Merge a NodeAgentFluentbitWindowsDefaults in
    (a', err, MergeCall a NodeAgentFluentbitWindowsDefaults a' err)
  else
    let '(a', err) := Merge a NodeAgentFluentbitLinuxDefaults in
    (a', err, MergeCall a NodeAgentFluentbitLinuxDefaults a' err).

(** The parent resource as an instance sees it: the merges update the
    entries in place, so the entries already visited and the current
    one are the merged ones. *)
Definition withNodeAgents (l : Logging) (agents : list NodeAgent) : Logging :=
  {| LoggingName := LoggingName l; NodeAgents := agents |}.

(** The [for ... range r.Logging.Spec.NodeAgents] loop of the top-level
    [Reconcile]: [seen] are the entries already visited, [todo] those
    still to visit.  The result carries the entries as the pass leaves
    them. *)
Fixpoint reconcileNodeAgents (l : Logging) (seen todo : list NodeAgent)
    (w : World) : Outcome * list NodeAgent * World * list Event :=
  match todo with
  | [] => ((None, None), seen, w, [])
  | a :: rest =>
    let '(a1, err) := Merge a NodeAgentFluentbitDefaults in
    let ev1 := MergeCall a NodeAgentFluentbitDefaults a1 err in
    match err with
    | Some err => ((None, Some err), seen ++ a1 :: rest, w, [ev1])
    | None =>
      let '(a2, err, ev2) := mergePlatformDefaults a1 in
      match err with
      | Some err => ((None, Some err), seen ++ a2 :: rest, w, [ev1; ev2])
      | None =>
        let instance :=
          {| nodeAgent := a2;
             logging := withNodeAgents l (seen ++ a2 :: rest) |} in
        let '((result, err), w1, evs) :=
          nodeAgentInstance_Reconcile instance w in
        match err with
        | Some err =>
          ((None,
            Some (WrapWithDetails err "failed to reconcile instances"
                    "NodeName" (DetailString (Name a2)))),
           seen ++ a2 :: rest, w1, ev1 :: ev2 :: evs)
        | None =>
          match result with
          | Some result =>
            ((Some result, None), seen ++ a2 :: rest, w1, ev1 :: ev2 :: evs)
          | None =>
            let '(out, agents, w2, evs') :=
              reconcileNodeAgents l (seen ++ [a2]) rest w1 in
            (out, agents, w2, ev1 :: ev2 :: evs ++ evs')
          end
        end
      end
    end
  end.

(** [(r *Reconciler) Reconcile()] on the parent resource [r.Logging]. *)
Definition Reconciler_Reconcile (l : Logging) (w : World)
    : Outcome * list NodeAgent * World * list Event :=
  reconcileNodeAgents l [] (NodeAgents l) w.

(** *** Reading a list of recorded calls *)

(** The factories invoked, in order. *)
Definition invoked (evs : list Event) : list Factory :=
  omap (λ ev, match ev with FactoryCall _ f _ _ _ => Some f | _ => None end) evs.

(** The merge calls, in order: destination, profile, updated
    destination. *)
Definition mergeCalls (evs : list Event)
    : list (NodeAgent * NodeAgent * NodeAgent) :=
  omap (λ ev, match ev with
              | MergeCall dst src dst' _ => Some (dst, src, dst')
              | _ => None
              end) evs.

(** The error a recorded call returned. *)
Definition errorOf (ev : Event) : option error :=
  match ev with
  | MergeCall _ _ _ err => err
  | FactoryCall _ _ _ _ err => err
  | ApplyCall _ _ _ _ err => err
  end.

(** The objects handed to the apply primitive, in order. *)
Definition applied (evs : list Event) : list Object :=
  omap (λ ev, match ev with ApplyCall _ o _ _ _ => Some o | _ => None end) evs.

(** What a recorded factory or apply call makes the instance
    [Reconcile] return, when it makes it return. *)
Definition instanceVerdict (ev : Event) : option Outcome :=
  match ev with
  | MergeCall _ _ _ _ => None
  | FactoryCall _ _ _ _ (Some err) =>
    Some (None, Some (WrapIf err "failed to create desired object"))
  | FactoryCall _ f None _ None =>
    Some (None,
          Some (Errorf "Reconcile error! Resource %#v returns with nil object" f))
  | FactoryCall _ _ (Some _) _ None => None
  | ApplyCall _ o _ _ (Some err) =>
    Some (None,
          Some (WrapWithDetails err "failed to reconcile resource"
                  "resource" (DetailKind (GroupVersionKindOf o))))
  | ApplyCall _ _ _ (Some result) None => Some (Some result, None)
  | ApplyCall _ _ _ None None => None
  end.

(** What the top-level [Reconcile] makes of an instance outcome. *)
Definition wrapInstance (n : nodeAgentInstance) (out : Outcome) : Outcome :=
  match out with
  | (_, Some err) =>
    (None,
     Some (WrapWithDetails err "failed to reconcile instances"
             "NodeName" (DetailString (Name (nodeAgent n)))))
  | (result, None) => (result, None)
  end.

(** What a recorded call makes the top-level [Reconcile] return, when it
    makes it return. *)
Definition verdict (ev : Event) : option Outcome :=
  match ev with
  | MergeCall _ _ _ (Some err) => Some (None, Some err)
  | MergeCall _ _ _ None => None
  | FactoryCall n _ _ _ _ | ApplyCall n _ _ _ _ =>
    wrapInstance n <$> instanceVerdict ev
  end.

(** The instance a recorded factory or apply call was made for. *)
Definition instanceOf (ev : Event) : option nodeAgentInstance :=
  match ev with
  | MergeCall _ _ _ _ => None
  | FactoryCall n _ _ _ _ | ApplyCall n _ _ _ _ => Some n
  end.

(** A run: the calls [evs] and the outcome [out] fit together under the
    verdict [V] when either no call has a verdict and the outcome is
    "continue", or the last call, and only it, has a verdict, which is the
    outcome. *)
Definition runs (V : Event → option Outcome) (evs : list Event)
    (out : Outcome) : Prop :=
  (Forall (λ ev, V ev = None) evs ∧ out = (None, None)) ∨
  (∃ pre ev, evs = pre ++ [ev] ∧ Forall (λ ev, V ev = None) pre ∧
             V ev = Some out ∧ out ≠ (None, None)).

End Reconciler.



(** The merge calls of a pass come in pairs, one pair per entry visited:
    the Base profile, then the platform profile chosen by the [Type] the
    entry has at that point.  A pass that a failed Base merge ends leaves a
    single call for its last entry. *)
Inductive paired :
  list v1beta1.NodeAgent →
  list (v1beta1.NodeAgent * v1beta1.NodeAgent * v1beta1.NodeAgent) → Prop :=
| paired_none todo : paired todo []
| paired_base a rest a1 :
    paired (a :: rest) [(a, NodeAgentFluentbitDefaults, a1)]
| paired_both a rest a1 P a2 calls :
    (v1beta1.Type_ a1 = "windows" → P = NodeAgentFluentbitWindowsDefaults) →
    (v1beta1.Type_ a1 ≠ "windows" → P = NodeAgentFluentbitLinuxDefaults) →
    paired rest calls →
    paired (a :: rest)
           ((a, NodeAgentFluentbitDefaults, a1) :: (a1, P, a2) :: calls).

(** [merged S S']: [S'] is what the two merges of the top-level loop,
    done with the merge of the spec, make of the entry [S]. *)
Definition merged (S S' : v1beta1.NodeAgent) : Prop :=
  ∃ P,
    (v1beta1.Type_ S = "windows" → P = NodeAgentFluentbitWindowsDefaults) ∧
    (v1beta1.Type_ S ≠ "windows" → P = NodeAgentFluentbitLinuxDefaults) ∧
    S' = mergo.mergeNodeAgent
           (mergo.mergeNodeAgent S NodeAgentFluentbitDefaults) P.

(** ** Sample collaborators and parent resources

    A world that counts the calls made so far, objects named after the
    factory that builds them, and parent resources with one or two
    entries; the examples and witnesses below run the reconciler on
    them. *)

Module Sample.
Import v1beta1.

Definition err : Type := error string.

(** A factory that always builds its object. *)
Definition build (f : Factory) (n : nodeAgentInstance) (w : nat)
    : (option string * bool * option err) * nat :=
  ((Some (match f with
          | serviceAccount => "ServiceAccount"
          | clusterRole | pspClusterRole => "ClusterRole"
          | clusterRoleBinding | pspClusterRoleBinding => "ClusterRoleBinding"
          | clusterPodSecurityPolicy => "PodSecurityPolicy"
          | configSecret => "Secret"
          | daemonSet => "DaemonSet"
          | serviceMetrics => "Service"
          | monitorServiceMetrics => "ServiceMonitor"
          end), true, None), S w).

(** Factories of which the one called as call number [k] fails. *)
Definition buildFailingAt (k : nat) (f : Factory) (n : nodeAgentInstance)
    (w : nat) : (option string * bool * option err) * nat :=
  if decide (w = k)
  then ((None, true, Some (Foreign "cannot build")), S w)
  else build f n w.

(** Factories of which the one called as call number [k] returns a nil
    object and a nil error. *)
Definition buildNilAt (k : nat) (f : Factory) (n : nodeAgentInstance)
    (w : nat) : (option string * bool * option err) * nat :=
  if decide (w = k) then ((None, true, None), S w) else build f n w.

(** An apply primitive that finds every resource in its desired state. *)
Definition settle (o : string) (state : bool) (w : nat)
    : (option nat * option err) * nat :=
  ((None, None), S w).

(** An apply primitive that asks for a requeue (after 30) on call number
    [k]. *)
Definition requeueAt (k : nat) (o : string) (state : bool) (w : nat)
    : (option nat * option err) * nat :=
  ((if decide (w = k) then Some 30%nat else None, None), S w).

(** An apply primitive that fails on call number [k]. *)
Definition failAt (k : nat) (o : string) (state : bool) (w : nat)
    : (option nat * option err) * nat :=
  ((None, if decide (w = k) then Some (Foreign "conflict") else None), S w).

(** A merge that reports an error and leaves its destination alone. *)
Definition failingMerge (dst src : NodeAgent) : NodeAgent * option err :=
  (dst, Some (Foreign "src and dst must be of same type")).

Definition kindOf (o : string) : string := o.

(** An entry that sets nothing but its name and its type. *)
Definition entry (name type : string) : NodeAgent :=
  {| Name := name; Type_ := type;
     Metadata := zero.ObjectMeta; FluentbitSpec := None |}.

(** A Windows entry that sets the daemon's node selector and nothing
    else. *)
Definition infraPool : NodeAgent :=
  {| Name := "win"; Type_ := "windows";
     Metadata := zero.ObjectMeta;
     FluentbitSpec := Some
       {| DaemonSetOverrides := Some
            {| typeoverride.Spec :=
               {| typeoverride.Template :=
                  {| typeoverride.PodTemplateSpec_Spec :=
                     {| typeoverride.Containers := [];
                        typeoverride.NodeSelector := <["pool" := "infra"]> ∅;
                        typeoverride.Tolerations := [] |} |} |} |};
          Flush := 0; Grace := 0; LogLevel := ""; CoroStackSize := 0;
          InputTail_ := zero.InputTail;
          Security_ := None;
          MountPath := "";
          BufferStorage_ := zero.BufferStorage;
          FilterAws_ := None;
          ForwardOptions_ := None |} |}.

(** An entry that names its own service account. *)
Definition ownSecurity : Security :=
  {| ServiceAccount := "collector";
     RoleBasedAccessControlCreate := None;
     SecurityContext := None;
     PodSecurityContext := None |}.

Definition ownFluentbit : NodeAgentFluentbit :=
  {| DaemonSetOverrides := None;
     Flush := 0; Grace := 0; LogLevel := ""; CoroStackSize := 0;
     InputTail_ := zero.InputTail;
     Security_ := Some ownSecurity;
     MountPath := "";
     BufferStorage_ := zero.BufferStorage;
     FilterAws_ := None;
     ForwardOptions_ := None |}.

Definition ownAccount : NodeAgent :=
  {| Name := "edge"; Type_ := "";
     Metadata := zero.ObjectMeta;
     FluentbitSpec := Some ownFluentbit |}.

Definition parent (agents : list NodeAgent) : Logging :=
  {| LoggingName := "logs"; NodeAgents := agents |}.

(** The two merges of the top-level loop, with the merge of the spec. *)
Definition mergedWith (P a : NodeAgent) : NodeAgent :=
  mergo.mergeNodeAgent
    (mergo.mergeNodeAgent a NodeAgentFluentbitDefaults) P.

(** The instance of the one entry [entry "a" ""] of its parent. *)
Definition anInstance : nodeAgentInstance :=
  {| nodeAgent := mergedWith NodeAgentFluentbitLinuxDefaults (entry "a" "");
     logging :=
       parent [mergedWith NodeAgentFluentbitLinuxDefaults (entry "a" "")] |}.

(** A parent with a Linux entry and a Windows entry, and the instance of
    the first one at the time it is reconciled. *)
Definition twoEntries : Logging :=
  parent [entry "a" ""; entry "b" "windows"].

Definition firstOfTwo : nodeAgentInstance :=
  {| nodeAgent := mergedWith NodeAgentFluentbitLinuxDefaults (entry "a" "");
     logging :=
       parent [mergedWith NodeAgentFluentbitLinuxDefaults (entry "a" "");
               entry "b" "windows"] |}.

(** The instance of [ownAccount]; the test merge leaves it as it is. *)
Definition ownInstance : nodeAgentInstance :=
  {| nodeAgent := ownAccount; logging := parent [ownAccount] |}.

(** Recorded calls that let the pass go on. *)
Definition built (n : nodeAgentInstance) (f : Factory) (o : string)
    : @Event string bool nat string :=
  FactoryCall n f (Some o) true None.

Definition settled (n : nodeAgentInstance) (o : string)
    : @Event string bool nat string :=
  ApplyCall n o true None None.

End Sample.

(** ** Reading names and recorded calls *)

(** No ['-'] occurs in [s]. *)
Fixpoint dashFree (s : string) : bool :=
  match s with
  | EmptyString => true
  | String c s' => if Ascii.eqb c "-"%char then false else dashFree s'
  end.

(** A recorded call lets the pass go on: it returned no error, a factory
    call returned an object, and an apply call returned no result. *)
Definition passesOn {Object DesiredState Result GroupVersionKind : Type}
    (ev : @Event Object DesiredState Result GroupVersionKind) : Prop :=
  match ev with
  | MergeCall _ _ _ err => err = None
  | FactoryCall _ _ o _ err => err = None ∧ o ≠ None
  | ApplyCall _ _ _ result err => err = None ∧ result = None
  end.

(** What the pass leaves in one slot of the list of entries, read off the
    merge calls: the result of the slot's platform merge, or of its Base
    merge when there was no platform merge, or the entry as declared when
    no merge call was made for it. *)
Definition slot_ok
    (calls : list (v1beta1.NodeAgent * v1beta1.NodeAgent * v1beta1.NodeAgent))
    (agents todo : list v1beta1.NodeAgent) (offset j : nat) : Prop :=
  (∀ d P d', calls !! S (2 * j) = Some (d, P, d') →
             agents !! (offset + j)%nat = Some d') ∧
  (∀ a P a1, calls !! (2 * j)%nat = Some (a, P, a1) →
             calls !! S (2 * j) = None →
             agents !! (offset + j)%nat = Some a1) ∧
  ((length calls ≤ 2 * j)%nat → agents !! (offset + j)%nat = todo !! j).

(** More sample collaborators: a factory that hands back an object
    together with an error, an apply primitive that hands back a result
    together with an error, and a merge that renames the entry it is given
    (by appending the name the profile carries). *)
Module MoreSamples.
Import v1beta1.

Definition buildWithError (f : Factory) (n : nodeAgentInstance) (w : nat)
    : (option string * bool * option Sample.err) * nat :=
  ((Some "ServiceAccount", true, Some (Foreign "cannot build")), S w).

Definition requeueAndFail (o : string) (state : bool) (w : nat)
    : (option nat * option Sample.err) * nat :=
  ((Some 30%nat, Some (Foreign "conflict")), S w).

Definition instanceNamed (parent agent : string) : nodeAgentInstance :=
  {| nodeAgent := Sample.entry agent "";
     logging := {| LoggingName := parent; NodeAgents := [] |} |}.

(** An entry whose spec sets the log level and nothing else. *)
Definition onlyLogLevel : NodeAgent :=
  {| Name := "dbg";
     Type_ := "";
     Metadata := zero.ObjectMeta;
     FluentbitSpec := Some
       {| DaemonSetOverrides := None;
          Flush := 0;
          Grace := 0;
          LogLevel := "debug";
          CoroStackSize := 0;
          InputTail_ := zero.InputTail;
          Security_ := None;
          MountPath := "";
          BufferStorage_ := zero.BufferStorage;
          FilterAws_ := None;
          ForwardOptions_ := None |} |}.

(** A store with the Base profile's [FluentbitSpec] in its one cell, the
    profile as a pointer to that cell, and an entry that sets nothing. *)
Definition profileCell : v1beta1.NodeAgentFluentbit :=
  default zero.NodeAgentFluentbit (FluentbitSpec NodeAgentFluentbitDefaults).

Definition profileStore : store.Store := {[ 1%positive := profileCell ]}.

Definition profileAt : store.NodeAgent :=
  {| store.Name := ""; store.Type_ := ""; store.Metadata := zero.ObjectMeta;
     store.FluentbitSpec := Some 1%positive |}.

Definition emptyAt : store.NodeAgent :=
  {| store.Name := ""; store.Type_ := ""; store.Metadata := zero.ObjectMeta;
     store.FluentbitSpec := None |}.

End MoreSamples.

(** * Properties *)

(** ** Runs: calls and outcome fit together *)

Section Runs.
Context {Object DesiredState Result GroupVersionKind : Type}.
Local Abbreviation Event := (@Event Object DesiredState Result GroupVersionKind).
Local Abbreviation Outcome := (@Outcome Result GroupVersionKind).
Variable V : Event → option Outcome.

Lemma runs_nil : runs V [] (None, None).
Proof. left. split; [constructor | reflexivity]. Qed.

Lemma runs_stop ev out :
  V ev = Some out → out ≠ (None, None) → runs V [ev] out.
Proof. intros Hv Hne. right. exists [], ev. repeat split; auto. Qed.

Lemma runs_quiet_app pre evs out :
  Forall (λ ev, V ev = None) pre → runs V evs out → runs V (pre ++ evs) out.
Proof.
  intros Hpre [[Hq ->] | (p & ev & -> & Hq & Hv & Hne)].
  - left. split; [by apply Forall_app | done].
  - right. exists (pre ++ p), ev. rewrite app_assoc.
    repeat split; auto. by apply Forall_app.
Qed.

Lemma runs_quiet_cons e evs out :
  V e = None → runs V evs out → runs V (e :: evs) out.
Proof.
  intros He Hr. apply (runs_quiet_app [e]); [by constructor | done].
Qed.

(** A call with a verdict is the last call of its run, and its verdict is
    the outcome. *)
Lemma runs_stop_last evs out pre ev post v :
  runs V evs out → evs = pre ++ ev :: post → V ev = Some v →
  post = [] ∧ out = v.
Proof.
  intros [[Hq _] | (p & e & -> & Hq & Hv & _)] Heq Hev.
  - subst evs. apply Forall_app in Hq as [_ Hq].
    apply Forall_cons in Hq as [Hq _]. congruence.
  - destruct post as [| x post _] using rev_ind.
    + apply app_inj_tail in Heq as [_ <-]. split; [done | congruence].
    + rewrite app_comm_cons, app_assoc in Heq.
      apply app_inj_tail in Heq as [-> _].
      apply Forall_app in Hq as [_ Hq].
      apply Forall_cons in Hq as [Hq _]. congruence.
Qed.

Lemma runs_continue evs :
  runs V evs (None, None) → Forall (λ ev, V ev = None) evs.
Proof.
  intros [[Hq _] | (p & e & _ & _ & _ & Hne)]; [done | by destruct Hne].
Qed.

Lemma runs_stopped evs out :
  runs V evs out → out ≠ (None, None) →
  ∃ pre ev, evs = pre ++ [ev] ∧ Forall (λ ev, V ev = None) pre ∧
            V ev = Some out.
Proof.
  intros [[_ ->] | (p & e & -> & Hq & Hv & _)] Hne; [done |].
  exists p, e. auto.
Qed.
End Runs.

(** ** Lists: prefixes of a duplicate-free list *)

Lemma prefix_take {A} (l1 l2 : list A) :
  l1 `prefix_of` l2 → l1 = take (length l1) l2.
Proof. intros [k ->]. by rewrite take_app_length. Qed.

Lemma NoDup_drop_take {A} (l : list A) k x :
  NoDup l → x ∈ drop k l → x ∉ take k l.
Proof.
  intros Hnd Hd Ht. rewrite <- (take_drop k l) in Hnd.
  apply NoDup_app in Hnd as (_ & Hdis & _). by apply (Hdis x).
Qed.

Lemma NoDup_factories : NoDup factories.
Proof. by apply (bool_decide_unpack _). Qed.

(** ** The instance pass *)

Section InstanceFacts.
Context {World Object DesiredState Result GroupVersionKind : Type}.
Local Abbreviation error := (error GroupVersionKind).
Local Abbreviation Event := (@Event Object DesiredState Result GroupVersionKind).
Variable GroupVersionKindOf : Object → GroupVersionKind.
Variable resource :
  Factory → nodeAgentInstance → World →
  (option Object * DesiredState * option error) * World.
Variable ReconcileResource :
  Object → DesiredState → World → (option Result * option error) * World.

Local Abbreviation loop :=
  (reconcileResources GroupVersionKindOf resource ReconcileResource).
Local Abbreviation instance :=
  (nodeAgentInstance_Reconcile GroupVersionKindOf resource ReconcileResource).
Local Abbreviation IV :=
  (@instanceVerdict Object DesiredState Result GroupVersionKind
     GroupVersionKindOf).

(** One turn of the loop, case by case. *)
Ltac turn :=
  match goal with
  | |- context [resource ?f ?n ?w] =>
    destruct (resource f n w) as [[[[o|] st] [e|]] w1] eqn:Hres
  end;
  try match goal with
  | |- context [ReconcileResource ?o ?st ?w] =>
    destruct (ReconcileResource o st w) as [[[r|] [e'|]] w2] eqn:Happ
  end.

Lemma reconcileResources_runs n fs w :
  runs IV (loop n fs w).2 (loop n fs w).1.1.
Proof.
  revert w. induction fs as [|f fs IH]; intros w; simpl.
  - apply runs_nil.
  - turn; simpl; try (apply runs_stop; [reflexivity | discriminate]);
      try (apply runs_quiet_cons; [reflexivity |];
           apply runs_stop; [reflexivity | discriminate]).
    specialize (IH w2).
    destruct (loop n fs w2) as [[out w3] evs]. simpl in *.
    by do 2 (apply runs_quiet_cons; [reflexivity |]).
Qed.

Lemma reconcileResources_instance n fs w :
  Forall (λ ev, instanceOf ev = Some n) (loop n fs w).2.
Proof.
  revert w. induction fs as [|f fs IH]; intros w; simpl.
  - constructor.
  - turn; simpl; repeat constructor.
    specialize (IH w2).
    destruct (loop n fs w2) as [[out w3] evs]. simpl in *.
    by repeat constructor.
Qed.

Lemma reconcileResources_no_merge n fs w :
  mergeCalls (loop n fs w).2 = [].
Proof.
  revert w. induction fs as [|f fs IH]; intros w; simpl; [done |].
  turn; simpl; try done.
  specialize (IH w2).
  destruct (loop n fs w2) as [[out w3] evs]. simpl in *. done.
Qed.

Lemma reconcileResources_invoked n fs w :
  invoked (loop n fs w).2 `prefix_of` fs ∧
  ((loop n fs w).1.1 = (None, None) → invoked (loop n fs w).2 = fs).
Proof.
  revert w. induction fs as [|f fs IH]; intros w; simpl; [done |].
  turn; simpl; try (split; [by apply prefix_cons, prefix_nil | done]).
  specialize (IH w2).
  destruct (loop n fs w2) as [[out w3] evs]. simpl in *.
  destruct IH as [IH1 IH2]. split.
  - by apply prefix_cons.
  - intros H. by rewrite IH2.
Qed.

Lemma invoked_app (evs evs' : list Event) :
  invoked (evs ++ evs') = invoked evs ++ invoked evs'.
Proof. apply omap_app. Qed.

Lemma applied_app (evs evs' : list Event) :
  applied (evs ++ evs') = applied evs ++ applied evs'.
Proof. apply omap_app. Qed.

(** What an instance pass returns is the verdict of its last call. *)
Lemma instance_outcome_recorded n w :
  (instance n w).1.1 ≠ (None, None) →
  ∃ ev, last (instance n w).2 = Some ev ∧ instanceOf ev = Some n ∧
        IV ev = Some (instance n w).1.1.
Proof.
  intros Hne. unfold nodeAgentInstance_Reconcile in *.
  pose proof (reconcileResources_runs n factories w) as Hr.
  pose proof (reconcileResources_instance n factories w) as Hn.
  destruct (runs_stopped _ _ _ Hr Hne) as (pre & ev & Heq & _ & Hv).
  exists ev. rewrite Heq in *. rewrite last_snoc. split; [done |].
  apply Forall_app in Hn as [_ Hn]. apply Forall_cons in Hn as [Hn _]. done.
Qed.

(** C7: every instance pass goes through the factories in the one fixed
    order service account, cluster role, cluster role binding, pod security
    policy, its cluster role, its cluster role binding, configuration
    secret, daemon set, metrics service, metrics service monitor: the
    factories a pass invokes are an initial part of that list of ten, none
    is invoked twice, and a pass that runs to the end has invoked all ten. *)
Theorem fixed_factory_order n w :
  invoked (instance n w).2 `prefix_of`
    [ serviceAccount; clusterRole; clusterRoleBinding;
      clusterPodSecurityPolicy; pspClusterRole; pspClusterRoleBinding;
      configSecret; daemonSet; serviceMetrics; monitorServiceMetrics ] ∧
  NoDup (invoked (instance n w).2) ∧
  (length (invoked (instance n w).2) ≤ 10)%nat ∧
  ((instance n w).1.1 = (None, None) →
   invoked (instance n w).2 =
     [ serviceAccount; clusterRole; clusterRoleBinding;
       clusterPodSecurityPolicy; pspClusterRole; pspClusterRoleBinding;
       configSecret; daemonSet; serviceMetrics; monitorServiceMetrics ]).
Proof.
  destruct (reconcileResources_invoked n factories w) as [Hpre Hall].
  fold (instance n w) in Hpre, Hall. change [_; _; _; _; _; _; _; _; _; _]
    with factories.
  split; [done |]. split; [| split; [| done]].
  - destruct Hpre as [k Hk]. pose proof NoDup_factories as Hnd.
    rewrite Hk in Hnd. by apply NoDup_app in Hnd as [? _].
  - apply prefix_length in Hpre. exact Hpre.
Qed.

(** C4: when the apply primitive answers the call made for the [k]-th
    factory with a requeue result (and no error), that call is the last
    one of the pass, the pass returns that result with a nil error, and
    the factories invoked are exactly the first [k] of the list: none of
    the later ones is invoked. *)
Theorem pipeline_short_circuit n w pre o state result post :
  (instance n w).2 = pre ++ ApplyCall n o state (Some result) None :: post →
  post = [] ∧
  (instance n w).1.1 = (Some result, None) ∧
  invoked (instance n w).2 = take (length (invoked pre)) factories ∧
  ∀ g, g ∈ drop (length (invoked pre)) factories →
       g ∉ invoked (instance n w).2.
Proof.
  intros Hevs.
  pose proof (reconcileResources_runs n factories w) as Hr.
  destruct (reconcileResources_invoked n factories w) as [Hpre _].
  fold (instance n w) in Hr, Hpre.
  destruct (runs_stop_last _ _ _ _ _ _ _ Hr Hevs eq_refl) as [-> Hout].
  assert (Hinv : invoked (instance n w).2 = invoked pre).
  { rewrite Hevs, invoked_app. simpl. by rewrite app_nil_r. }
  split; [done |]. split; [done |]. rewrite Hinv in *. split.
  - by apply prefix_take.
  - intros g Hg. rewrite (prefix_take _ _ Hpre).
    by apply NoDup_drop_take; [apply NoDup_factories |].
Qed.

(** C8: when a factory returns a nil object together with a nil error,
    that call is the last one of the pass (so the apply primitive is not
    called for the factory and no later factory is invoked), and the pass
    returns a nil result with the "returns with nil object" error. *)
Theorem nil_object_is_fatal n w pre f state post :
  (instance n w).2 = pre ++ FactoryCall n f None state None :: post →
  post = [] ∧
  (instance n w).1.1 =
    (None,
     Some (Errorf "Reconcile error! Resource %#v returns with nil object" f)) ∧
  applied (instance n w).2 = applied pre ∧
  invoked (instance n w).2 = take (S (length (invoked pre))) factories ∧
  ∀ g, g ∈ drop (S (length (invoked pre))) factories →
       g ∉ invoked (instance n w).2.
Proof.
  intros Hevs.
  pose proof (reconcileResources_runs n factories w) as Hr.
  destruct (reconcileResources_invoked n factories w) as [Hpre _].
  fold (instance n w) in Hr, Hpre.
  destruct (runs_stop_last _ _ _ _ _ _ _ Hr Hevs eq_refl) as [-> Hout].
  assert (Hlen : length (invoked (instance n w).2) = S (length (invoked pre))).
  { rewrite Hevs, invoked_app, length_app. simpl. lia. }
  split; [done |]. split; [done |]. split; [| split].
  - rewrite Hevs, applied_app. simpl. by rewrite app_nil_r.
  - rewrite <- Hlen. by apply prefix_take.
  - intros g Hg. rewrite (prefix_take _ _ Hpre), Hlen.
    by apply NoDup_drop_take; [apply NoDup_factories |].
Qed.

End InstanceFacts.

(** ** An instance pass, seen from the top-level loop *)

Section InstanceInTop.
Context {World Object DesiredState Result GroupVersionKind : Type}.
Local Abbreviation error := (error GroupVersionKind).
Local Abbreviation Event := (@Event Object DesiredState Result GroupVersionKind).
Local Abbreviation Outcome := (@Outcome Result GroupVersionKind).
Variable GroupVersionKindOf : Object → GroupVersionKind.
Variable resource :
  Factory → nodeAgentInstance → World →
  (option Object * DesiredState * option error) * World.
Variable ReconcileResource :
  Object → DesiredState → World → (option Result * option error) * World.

Local Abbreviation instance :=
  (nodeAgentInstance_Reconcile GroupVersionKindOf resource ReconcileResource).
Local Abbreviation IV :=
  (@instanceVerdict Object DesiredState Result GroupVersionKind
     GroupVersionKindOf).
Local Abbreviation TV :=
  (@verdict Object DesiredState Result GroupVersionKind GroupVersionKindOf).

Lemma verdict_instance ev n :
  instanceOf ev = Some n → TV ev = wrapInstance n <$> IV ev.
Proof. destruct ev; simpl; intros [= <-]; reflexivity. Qed.

Lemma wrapInstance_stops n (out : Outcome) :
  out ≠ (None, None) → wrapInstance n out ≠ (None, None).
Proof. destruct out as [[r|] [e|]]; simpl; congruence. Qed.

Lemma instance_events_own n w :
  Forall (λ ev, instanceOf ev = Some n) (instance n w).2.
Proof. apply reconcileResources_instance. Qed.

Lemma instance_no_merge n w : mergeCalls (instance n w).2 = [].
Proof. apply reconcileResources_no_merge. Qed.

Lemma instance_runs_top n w :
  runs TV (instance n w).2 (wrapInstance n (instance n w).1.1).
Proof.
  pose proof (reconcileResources_runs GroupVersionKindOf resource
                ReconcileResource n factories w) as Hr.
  pose proof (instance_events_own n w) as Hn.
  unfold nodeAgentInstance_Reconcile in *.
  destruct (reconcileResources _ _ _ n factories w) as [[out w'] evs].
  simpl in *.
  destruct Hr as [[Hq ->] | (pre & ev & -> & Hq & Hv & Hne)].
  - left. split; [| done].
    rewrite Forall_forall in Hq, Hn. apply Forall_forall. intros ev Hin.
    rewrite (verdict_instance _ _ (Hn _ Hin)), (Hq _ Hin). done.
  - apply Forall_app in Hn as [Hn1 Hn2]. apply Forall_cons in Hn2 as [Hn2 _].
    right. exists pre, ev. repeat split.
    + rewrite Forall_forall in Hq, Hn1. apply Forall_forall. intros ev' Hin.
      rewrite (verdict_instance _ _ (Hn1 _ Hin)), (Hq _ Hin). done.
    + rewrite (verdict_instance _ _ Hn2), Hv. done.
    + by apply wrapInstance_stops.
Qed.

Lemma mergeCalls_app (evs evs' : list Event) :
  mergeCalls (evs ++ evs') = mergeCalls evs ++ mergeCalls evs'.
Proof. apply omap_app. Qed.

Lemma mergeCalls_merge d s d' e (evs : list Event) :
  mergeCalls (MergeCall d s d' e :: evs) = (d, s, d') :: mergeCalls evs.
Proof. reflexivity. Qed.

(** The last call of a pass that went into an instance pass belongs to
    that instance. *)
Lemma last_instance (m1 m2 : Event) evsI inst n ev :
  Forall (λ ev, instanceOf ev = Some inst) evsI →
  instanceOf m2 = None →
  last (m1 :: m2 :: evsI) = Some ev → instanceOf ev = Some n →
  n = inst.
Proof.
  intros Hof Hm2 Hlast Hn.
  destruct evsI as [|x evsI _] using rev_ind.
  - cbn in Hlast. congruence.
  - rewrite !app_comm_cons, last_snoc in Hlast. injection Hlast as ->.
    apply Forall_app in Hof as [_ Hof]. apply Forall_cons in Hof as [Hof _].
    congruence.
Qed.
End InstanceInTop.

(** One turn of the top-level loop, case by case: the Base merge, the
    platform merge, then the instance pass with what is known of it. *)
Ltac instance_pass w :=
  match goal with
  | |- context [nodeAgentInstance_Reconcile ?g ?r ?R ?n w] =>
    pose proof (instance_runs_top g r R n w) as Hrun;
    pose proof (instance_events_own g r R n w) as Hof;
    pose proof (instance_no_merge g r R n w) as Hnm;
    destruct (nodeAgentInstance_Reconcile g r R n w)
      as [[[res [e|]] w1] evsI] eqn:HI;
    [| destruct res as [r0|]]
  end.

Ltac base_merge a :=
  match goal with
  | |- context [?M a NodeAgentFluentbitDefaults] =>
    match type of (M a NodeAgentFluentbitDefaults) with
    | prod _ _ =>
      destruct (M a NodeAgentFluentbitDefaults) as [a1 [e1|]] eqn:HM1
    end
  end.

Ltac platform_merge a1 :=
  match goal with
  | |- context [?M a1 ?P] =>
    match type of (M a1 P) with
    | prod _ _ => destruct (M a1 P) as [a2 [e2|]] eqn:HM2
    end
  end.

Ltac entry a w :=
  cbn [reconcileNodeAgents]; unfold mergePlatformDefaults;
  base_merge a;
  [| match goal with
     | |- context [decide (v1beta1.Type_ ?x = "windows")] =>
       destruct (decide (v1beta1.Type_ x = "windows")) as [Hwin|Hwin];
       (platform_merge x; [| instance_pass w])
     end ].

(** ** The top-level pass *)

Section TopFacts.
Context {World Object DesiredState Result GroupVersionKind : Type}.
Local Abbreviation error := (error GroupVersionKind).
Local Abbreviation Event := (@Event Object DesiredState Result GroupVersionKind).
Local Abbreviation Outcome := (@Outcome Result GroupVersionKind).
Import v1beta1.
Variable GroupVersionKindOf : Object → GroupVersionKind.
Variable Merge : NodeAgent → NodeAgent → NodeAgent * option error.
Variable resource :
  Factory → nodeAgentInstance → World →
  (option Object * DesiredState * option error) * World.
Variable ReconcileResource :
  Object → DesiredState → World → (option Result * option error) * World.

Local Abbreviation top :=
  (reconcileNodeAgents GroupVersionKindOf Merge resource ReconcileResource).
Local Abbreviation Reconcile :=
  (Reconciler_Reconcile GroupVersionKindOf Merge resource ReconcileResource).
Local Abbreviation IV :=
  (@instanceVerdict Object DesiredState Result GroupVersionKind
     GroupVersionKindOf).
Local Abbreviation TV :=
  (@verdict Object DesiredState Result GroupVersionKind GroupVersionKindOf).

Lemma reconcileNodeAgents_runs l todo seen w :
  runs TV (top l seen todo w).2 (top l seen todo w).1.1.1.
Proof.
  revert seen w. induction todo as [|a rest IH]; intros seen w.
  - apply runs_nil.
  - entry a w; simpl in *;
      try (apply runs_stop; [reflexivity | discriminate]);
      try (apply runs_quiet_cons; [reflexivity |];
           apply runs_stop; [reflexivity | discriminate]);
      try (do 2 (apply runs_quiet_cons; [reflexivity |]); assumption).
    all: specialize (IH (seen ++ [a2]) w1);
      destruct (top l (seen ++ [a2]) rest w1) as [[[out agents] w2] evs'];
      simpl in *;
      do 2 (apply runs_quiet_cons; [reflexivity |]);
      apply runs_quiet_app; [by apply runs_continue | done].
Qed.

Lemma reconcileNodeAgents_paired l todo seen w :
  paired todo (mergeCalls (top l seen todo w).2).
Proof.
  revert seen w. induction todo as [|a rest IH]; intros seen w.
  - constructor.
  - entry a w.
    all: try (specialize (IH (seen ++ [a2]) w1);
              destruct (top l (seen ++ [a2]) rest w1)
                as [[[out agents] w2] evs']).
    all: cbn [snd] in *;
      rewrite ?mergeCalls_merge, ?mergeCalls_app, ?Hnm, ?app_nil_l.
    all: try apply paired_base.
    all: apply paired_both; try done; apply paired_none.
Qed.

Lemma paired_lookup todo calls j :
  paired todo calls →
  (∀ a P a1, calls !! (2 * j)%nat = Some (a, P, a1) →
             todo !! j = Some a ∧ P = NodeAgentFluentbitDefaults) ∧
  (∀ d P d', calls !! S (2 * j) = Some (d, P, d') →
             (∃ a, todo !! j = Some a ∧
                   calls !! (2 * j)%nat = Some (a, NodeAgentFluentbitDefaults, d)) ∧
             (Type_ d = "windows" → P = NodeAgentFluentbitWindowsDefaults) ∧
             (Type_ d ≠ "windows" → P = NodeAgentFluentbitLinuxDefaults)).
Proof.
  intros Hp. revert j.
  induction Hp as [todo | a rest a1 | a rest a1 P a2 calls HW HL Hp IH];
    intros j.
  - split; intros ? ? ?; rewrite lookup_nil; intros [=].
  - destruct j as [|j].
    + split; intros ? ? ?; cbn; intros [=]; subst; auto.
    + replace (2 * S j)%nat with (S (S (2 * j))) by lia.
      split; intros ? ? ?; cbn; intros [=].
  - destruct j as [|j].
    + split; intros ? ? ?; cbn; intros [=]; subst; eauto.
    + replace (2 * S j)%nat with (S (S (2 * j))) by lia.
      cbn [lookup list_lookup]. apply IH.
Qed.

(** A pass over a non-empty list of entries makes at least one call. *)
Lemma reconcileNodeAgents_silent l todo seen w :
  (top l seen todo w).2 = [] → todo = [].
Proof.
  destruct todo as [|a rest]; [done |].
  entry a w; cbn [snd]; try done.
  all: by destruct (top l (seen ++ [a2]) rest w1) as [[[out agents] w2] evs'].
Qed.

Lemma drop_past_middle {A} (xs : list A) x y ys i :
  (length xs < i)%nat → drop i (xs ++ x :: ys) = drop i (xs ++ y :: ys).
Proof.
  intros Hi. rewrite !drop_app_ge by lia.
  destruct (i - length xs)%nat as [|k] eqn:Hk; [lia | done].
Qed.

Lemma located_here seen a a1 a2 rest P lg (evsI : list Event) ev n :
  Forall (λ ev, instanceOf ev = Some {| nodeAgent := a2; logging := lg |}) evsI →
  mergeCalls evsI = [] →
  last (MergeCall a NodeAgentFluentbitDefaults a1 None
          :: MergeCall a1 P a2 None :: evsI) = Some ev →
  instanceOf ev = Some n →
  ∃ i, (length seen ≤ i)%nat ∧
       (seen ++ a2 :: rest) !! i = Some (nodeAgent n) ∧
       drop (S i) (seen ++ a2 :: rest) = drop (S i) (seen ++ a :: rest) ∧
       length (mergeCalls
                 (MergeCall a NodeAgentFluentbitDefaults a1 None
                    :: MergeCall a1 P a2 None :: evsI))
       = (2 * (S i - length seen))%nat.
Proof.
  intros Hof Hnm Hlast Hn.
  pose proof (last_instance _ (MergeCall a1 P a2 None) _ _ _ _
                Hof eq_refl Hlast Hn) as ->.
  exists (length seen). split; [lia |].
  split; [apply list_lookup_middle; done |].
  split; [apply drop_past_middle; lia |].
  rewrite !mergeCalls_merge, Hnm. cbn. lia.
Qed.

(** Where the pass stands when its last call is one made for the
    instance [n]: the entry of [n] sits in the list at some index [i], the
    entries after it are as declared, and the entries up to it account
    for all the merge calls. *)
Lemma reconcileNodeAgents_located l todo seen w ev n :
  last (top l seen todo w).2 = Some ev → instanceOf ev = Some n →
  ∃ i, (length seen ≤ i)%nat ∧
       (top l seen todo w).1.1.2 !! i = Some (nodeAgent n) ∧
       drop (S i) (top l seen todo w).1.1.2 = drop (S i) (seen ++ todo) ∧
       length (mergeCalls (top l seen todo w).2)
       = (2 * (S i - length seen))%nat.
Proof.
  revert seen w. induction todo as [|a rest IH]; intros seen w; [done |].
  entry a w; cbn [fst snd]; intros Hlast Hn.
  all: try (cbn in Hlast; injection Hlast as <-; discriminate).
  all: try (eapply located_here; eassumption).
  all: specialize (IH (seen ++ [a2]) w1);
    pose proof (reconcileNodeAgents_silent l rest (seen ++ [a2]) w1) as Hsil;
    destruct (top l (seen ++ [a2]) rest w1)
      as [[[out agents] w2] evs'] eqn:Htop;
    cbn [fst snd] in *.
  all: destruct (last evs') as [ev'|] eqn:Hev'.
  all: try (rewrite !app_comm_cons, last_app, Hev' in Hlast;
      injection Hlast as ->;
      destruct (IH eq_refl Hn) as (i & Hi & Hlook & Hdrop & Hlen);
      rewrite length_app in Hi, Hlen; cbn in Hi, Hlen;
      exists i; split; [lia |]; split; [done |]; split;
      [ rewrite Hdrop, <- app_assoc; cbn; apply drop_past_middle; lia
      | rewrite !mergeCalls_merge, mergeCalls_app, Hnm; cbn; lia ]).
  all: apply last_None in Hev'; subst evs'; specialize (Hsil eq_refl);
      subst rest; cbn in Htop; injection Htop as <- <- <-;
      rewrite app_nil_r in *;
      eapply located_here; eassumption.
Qed.

(** Every merge call is recorded with what the merge returned. *)
Lemma reconcileNodeAgents_faithful l todo seen w :
  Forall (λ c, c.2 = (Merge c.1.1 c.1.2).1) (mergeCalls (top l seen todo w).2).
Proof.
  revert seen w. induction todo as [|a rest IH]; intros seen w.
  - constructor.
  - entry a w.
    all: try (specialize (IH (seen ++ [a2]) w1);
              destruct (top l (seen ++ [a2]) rest w1)
                as [[[out agents] w2] evs']).
    all: cbn [snd] in *;
      rewrite ?mergeCalls_merge, ?mergeCalls_app, ?Hnm, ?app_nil_l.
    all: repeat (apply Forall_cons; split;
                 [cbn; by rewrite ?HM1, ?HM2 |]); try done.
Qed.

Lemma quiet_no_error ev : TV ev = None → errorOf ev = None.
Proof.
  destruct ev as [? ? ? [?|]|? ? [?|] ? [?|]|? ? ? [?|] [?|]]; simpl; done.
Qed.

(** C5: when a call made for the instance of an entry makes the instance
    pass return an error [e], that call is the last one of the whole pass,
    the top-level [Reconcile] returns a nil result with [e] wrapped under
    the detail "NodeName" with the entry's name, and the entries after
    that entry are not processed: they are as declared, and the merge
    calls are the two of each entry up to it. *)
Theorem isolation_on_failure l w pre ev post n res e :
  (Reconcile l w).2 = pre ++ ev :: post →
  instanceOf ev = Some n →
  IV ev = Some (res, Some e) →
  post = [] ∧
  (Reconcile l w).1.1.1 =
    (None,
     Some (WrapWithDetails e "failed to reconcile instances"
             "NodeName" (DetailString (Name (nodeAgent n))))) ∧
  ∃ i, (Reconcile l w).1.1.2 !! i = Some (nodeAgent n) ∧
       drop (S i) (Reconcile l w).1.1.2 = drop (S i) (NodeAgents l) ∧
       length (mergeCalls (Reconcile l w).2) = (2 * S i)%nat.
Proof.
  intros Hevs Hn Hv. unfold Reconciler_Reconcile in *.
  pose proof (reconcileNodeAgents_runs l (NodeAgents l) [] w) as Hr.
  assert (Htv : TV ev = Some (wrapInstance n (res, Some e))).
  { by rewrite (verdict_instance _ _ _ Hn), Hv. }
  destruct (runs_stop_last _ _ _ _ _ _ _ Hr Hevs Htv) as [-> Hout].
  split; [done |]. split; [done |].
  assert (Hlast : last (top l [] (NodeAgents l) w).2 = Some ev).
  { by rewrite Hevs, last_snoc. }
  destruct (reconcileNodeAgents_located l _ _ _ _ _ Hlast Hn)
    as (i & _ & Hlook & Hdrop & Hlen).
  exists i. cbn [length] in Hlen.
  replace (S i - 0)%nat with (S i) in Hlen by lia. done.
Qed.

(** C6: the second merge made for the [j]-th entry takes the entry as the
    Base merge left it, with the Windows profile when the entry's [Type]
    is "windows" and with the Linux profile for any other value, the empty
    one included. *)
Theorem platform_profile_selection l w j d P d' :
  mergeCalls (Reconcile l w).2 !! S (2 * j) = Some (d, P, d') →
  (∃ a, NodeAgents l !! j = Some a ∧
        mergeCalls (Reconcile l w).2 !! (2 * j)%nat
        = Some (a, NodeAgentFluentbitDefaults, d) ∧
        d = (Merge a NodeAgentFluentbitDefaults).1) ∧
  (Type_ d = "windows" → P = NodeAgentFluentbitWindowsDefaults) ∧
  (Type_ d ≠ "windows" → P = NodeAgentFluentbitLinuxDefaults).
Proof.
  intros Hc. unfold Reconciler_Reconcile in *.
  pose proof (reconcileNodeAgents_paired l (NodeAgents l) [] w) as Hp.
  pose proof (reconcileNodeAgents_faithful l (NodeAgents l) [] w) as Hf.
  destruct (paired_lookup _ _ j Hp) as [_ H2].
  destruct (H2 _ _ _ Hc) as ((a & Ha & Hb) & HW & HL).
  split; [| done]. exists a. split; [done |]. split; [done |].
  rewrite Forall_forall in Hf.
  apply (Hf (a, NodeAgentFluentbitDefaults, d)).
  by eapply list_elem_of_lookup_2.
Qed.

(** C9, as the code has it: an error returned by the top-level
    [Reconcile] comes with a nil result and ends the pass at the call that
    failed, every call before it having returned without error.  An error
    of a factory, a nil object and an error of the apply primitive come
    back wrapped under the detail "NodeName" with the name of the entry
    the call was made for (the apply error also under the detail
    "resource" with the object's kind); an error of a merge comes back as
    the merge returned it. *)
Theorem errors_abort_the_pass l w res e :
  (Reconcile l w).1.1.1 = (res, Some e) →
  res = None ∧
  ∃ pre ev,
    (Reconcile l w).2 = pre ++ [ev] ∧
    Forall (λ ev, errorOf ev = None) pre ∧
    ((∃ dst src dst', ev = MergeCall dst src dst' (Some e)) ∨
     (∃ n i,
        (Reconcile l w).1.1.2 !! i = Some (nodeAgent n) ∧
        ((∃ f o state e0,
            ev = FactoryCall n f o state (Some e0) ∧
            e = WrapWithDetails
                  (WrapIf e0 "failed to create desired object")
                  "failed to reconcile instances"
                  "NodeName" (DetailString (Name (nodeAgent n)))) ∨
         (∃ f state,
            ev = FactoryCall n f None state None ∧
            e = WrapWithDetails
                  (Errorf
                     "Reconcile error! Resource %#v returns with nil object" f)
                  "failed to reconcile instances"
                  "NodeName" (DetailString (Name (nodeAgent n)))) ∨
         (∃ o state result e0,
            ev = ApplyCall n o state result (Some e0) ∧
            e = WrapWithDetails
                  (WrapWithDetails e0 "failed to reconcile resource"
                     "resource" (DetailKind (GroupVersionKindOf o)))
                  "failed to reconcile instances"
                  "NodeName" (DetailString (Name (nodeAgent n))))))).
Proof.
  intros Hout. unfold Reconciler_Reconcile in *.
  pose proof (reconcileNodeAgents_runs l (NodeAgents l) [] w) as Hr.
  rewrite Hout in Hr.
  destruct (runs_stopped _ _ _ Hr) as (pre & ev & Hevs & Hq & Hv); [done |].
  assert (Hlast : last (top l [] (NodeAgents l) w).2 = Some ev).
  { by rewrite Hevs, last_snoc. }
  assert (Hloc : ∀ n, instanceOf ev = Some n →
            ∃ i, (top l [] (NodeAgents l) w).1.1.2 !! i = Some (nodeAgent n)).
  { intros n Hn.
    destruct (reconcileNodeAgents_located l _ _ _ _ _ Hlast Hn)
      as (i & _ & Hlook & _). eauto. }
  assert (Hpre : Forall (λ ev, errorOf ev = None) pre).
  { eapply Forall_impl; [exact Hq |]. intros ? ?. by apply quiet_no_error. }
  destruct ev as [d s d' [e'|]|n f [o|] st [e0|]|n o st [r|] [e0|]];
    simpl in Hv; try discriminate; injection Hv as <- <-.
  all: split; [done |]; eexists pre, _; split; [exact Hevs |]; split; [done |].
  - left. eauto.
  - right. destruct (Hloc n eq_refl) as [i Hi]. exists n, i.
    split; [done |]. left. eauto 6.
  - right. destruct (Hloc n eq_refl) as [i Hi]. exists n, i.
    split; [done |]. left. eauto 6.
  - right. destruct (Hloc n eq_refl) as [i Hi]. exists n, i.
    split; [done |]. right; left. eauto.
  - right. destruct (Hloc n eq_refl) as [i Hi]. exists n, i.
    split; [done |]. right; right. eauto 6.
  - right. destruct (Hloc n eq_refl) as [i Hi]. exists n, i.
    split; [done |]. right; right. eauto 6.
Qed.

End TopFacts.

(** ** The merge of the spec *)

Section MergeFacts.
Import v1beta1 mergo.

Lemma mergeNodeAgent_kept S P : kept S (mergeNodeAgent S P).
Proof.
  intros f Hset. destruct f; simpl in *;
    unfold mergeScalar, mergeMapping, mergePointer;
    apply bool_decide_eq_true in Hset.
  - by rewrite decide_False.
  - by rewrite decide_False.
  - by rewrite decide_False.
  - by destruct (FluentbitSpec S).
Qed.

Lemma mergeNodeAgent_filled S P : filled S P (mergeNodeAgent S P).
Proof.
  intros f Hunset _. destruct f; simpl in *;
    unfold mergeScalar, mergeMapping, mergePointer;
    apply bool_decide_eq_false in Hunset.
  - rewrite decide_True; [done |]. by destruct (decide (Name S = "")).
  - rewrite decide_True; [done |]. by destruct (decide (Type_ S = "")).
  - rewrite decide_True; [done |].
    by destruct (decide (typeoverride.Labels (Metadata S) = ∅)).
  - destruct (FluentbitSpec S); [by destruct Hunset | done].
Qed.

Lemma kept_refl S : kept S S.
Proof. by intros f _. Qed.

Lemma kept_trans S1 S2 S3 : kept S1 S2 → kept S2 S3 → kept S1 S3.
Proof.
  intros H12 H23 f Hset. rewrite <- (H12 f Hset).
  apply H23. by rewrite (H12 f Hset).
Qed.

Lemma filled_kept S P S1 S2 : filled S P S1 → kept S1 S2 → filled S P S2.
Proof.
  intros Hf Hk f Hunset Hset. rewrite <- (Hf f Hunset Hset).
  apply Hk. by rewrite (Hf f Hunset Hset).
Qed.

(** The Base profile leaves the [Type] of an entry as it is. *)
Lemma Base_keeps_Type S :
  Type_ (mergeNodeAgent S NodeAgentFluentbitDefaults) = Type_ S.
Proof.
  simpl. unfold mergeScalar. by destruct (decide (Type_ S = "")).
Qed.

Lemma merged_kept S S' : merged S S' → kept S S'.
Proof.
  intros (P & _ & _ & ->).
  eapply kept_trans; apply mergeNodeAgent_kept.
Qed.

Lemma merged_filled S S' :
  merged S S' → filled S NodeAgentFluentbitDefaults S'.
Proof.
  intros (P & _ & _ & ->).
  eapply filled_kept; [apply mergeNodeAgent_filled | apply mergeNodeAgent_kept].
Qed.

(** Once the Base profile is merged in, the [FluentbitSpec] pointer is set,
    and neither platform profile sets a name, a type or labels: under the
    merge of the spec the platform merge finds nothing left to fill. *)
Lemma platform_merge_changes_nothing S P :
  P = NodeAgentFluentbitWindowsDefaults ∨ P = NodeAgentFluentbitLinuxDefaults →
  mergeNodeAgent (mergeNodeAgent S NodeAgentFluentbitDefaults) P
  = mergeNodeAgent S NodeAgentFluentbitDefaults.
Proof.
  intros [-> | ->]; destruct S as [name type [labels] [fb|]];
    unfold mergeNodeAgent, mergeScalar, mergeMapping, mergePointer; simpl;
    repeat case_decide; simplify_eq; reflexivity.
Qed.

(** A set [FluentbitSpec] pointer carries everything below it along. *)
Lemma kept_FluentbitSpec S S' fb :
  kept S S' → FluentbitSpec S = Some fb → FluentbitSpec S' = Some fb.
Proof.
  intros Hk Hfb. specialize (Hk FFluentbitSpec). simpl in Hk.
  rewrite Hfb in Hk. by injection (Hk eq_refl) as ->.
Qed.

Lemma kept_nodeSelector S S' m :
  kept S S' → nodeSelectorOf S = Some m → nodeSelectorOf S' = Some m.
Proof.
  intros Hk Hm. unfold nodeSelectorOf, podSpecOf in *.
  destruct (FluentbitSpec S) as [fb|] eqn:Hfb; [| done].
  by rewrite (kept_FluentbitSpec _ _ _ Hk Hfb).
Qed.

End MergeFacts.

(** ** The merge of the spec over a store *)

Section StoreFacts.

Lemma alloc_fresh (h : store.Store) : h !! store.alloc h = None.
Proof. apply not_elem_of_dom. unfold store.alloc. apply is_fresh. Qed.

(** Read through the store, the merge with addresses is the merge on
    values. *)
Lemma store_Merge_view h dst src D P :
  store.view h dst = Some D → store.view h src = Some P →
  store.view (store.Merge h dst src).1 (store.Merge h dst src).2
  = Some (mergo.mergeNodeAgent D P).
Proof.
  unfold store.view, store.Merge, store.mergePointer.
  destruct dst as [n t m [p|]], src as [n' t' m' [p'|]]; cbn.
  - destruct (h !! p) as [fb|]; [| done].
    destruct (h !! p') as [fb'|]; [| done]. cbn.
    by intros [= <-] [= <-].
  - destruct (h !! p) as [fb|]; [| done]. cbn.
    by intros [= <-] [= <-].
  - destruct (h !! p') as [fb'|] eqn:Hp'; [| done]. cbn.
    intros [= <-] [= <-]. by rewrite lookup_insert_eq.
  - by intros [= <-] [= <-].
Qed.

(** A cell that takes a new address leaves every reading as it was. *)
Lemma view_insert_alloc h a V fb :
  store.view h a = Some V →
  store.view (<[store.alloc h := fb]> h) a = Some V.
Proof.
  unfold store.view. destruct (store.FluentbitSpec a) as [p|]; [| done].
  destruct (h !! p) as [fb0|] eqn:Hp; [| done]. intros HV.
  rewrite lookup_insert_ne, Hp; [done |].
  intros Heq. rewrite <- Heq, alloc_fresh in Hp. done.
Qed.

(** The merge changes no cell the store had: every reading is as it
    was. *)
Lemma store_Merge_frame h dst src a V :
  store.view h a = Some V →
  store.view (store.Merge h dst src).1 a = Some V.
Proof.
  intros HV. unfold store.Merge, store.mergePointer. cbn.
  destruct (store.FluentbitSpec dst) as [p0|],
           (store.FluentbitSpec src) as [p|];
    try done.
  destruct (h !! p); [| done]. cbn. by apply view_insert_alloc.
Qed.

(** A pointer the merge fills is the address of a new cell with the
    content of the profile's cell; a write to that cell changes no
    reading made through the store before the merge. *)
Lemma store_Merge_fresh h dst src p fb :
  store.FluentbitSpec dst = None → store.FluentbitSpec src = Some p →
  h !! p = Some fb →
  ∃ q, store.FluentbitSpec (store.Merge h dst src).2 = Some q ∧
       q ≠ p ∧ h !! q = None ∧
       (store.Merge h dst src).1 !! q = Some fb ∧
       ∀ fb' a V, store.view h a = Some V →
                  store.view (<[q := fb']> (store.Merge h dst src).1) a
                  = Some V.
Proof.
  intros Hd Hs Hp. exists (store.alloc h).
  unfold store.Merge, store.mergePointer. rewrite Hd, Hs, Hp. cbn.
  split; [done |]. split.
  { intros Heq. rewrite <- Heq, alloc_fresh in Hp. done. }
  split; [apply alloc_fresh |].
  split; [by rewrite lookup_insert_eq |].
  intros fb' a V HV. rewrite insert_insert_eq. by apply view_insert_alloc.
Qed.

End StoreFacts.

(** ** The top-level pass with the merge of the spec *)

Section SpecMerge.
Context {World Object DesiredState Result GroupVersionKind : Type}.
Local Abbreviation error := (error GroupVersionKind).
Local Abbreviation Event := (@Event Object DesiredState Result GroupVersionKind).
Import v1beta1 mergo.
Variable GroupVersionKindOf : Object → GroupVersionKind.
Variable resource :
  Factory → nodeAgentInstance → World →
  (option Object * DesiredState * option error) * World.
Variable ReconcileResource :
  Object → DesiredState → World → (option Result * option error) * World.

Local Abbreviation M := (@Merge error).
Local Abbreviation top :=
  (reconcileNodeAgents GroupVersionKindOf M resource ReconcileResource).
Local Abbreviation Reconcile :=
  (Reconciler_Reconcile GroupVersionKindOf M resource ReconcileResource).

Lemma merged_windows a :
  Type_ (mergeNodeAgent a NodeAgentFluentbitDefaults) = "windows" →
  merged a (mergeNodeAgent (mergeNodeAgent a NodeAgentFluentbitDefaults)
              NodeAgentFluentbitWindowsDefaults).
Proof.
  rewrite Base_keeps_Type. intros Ht. eexists.
  split; [| split; [| reflexivity]]; intros; done.
Qed.

Lemma merged_linux a :
  Type_ (mergeNodeAgent a NodeAgentFluentbitDefaults) ≠ "windows" →
  merged a (mergeNodeAgent (mergeNodeAgent a NodeAgentFluentbitDefaults)
              NodeAgentFluentbitLinuxDefaults).
Proof.
  rewrite Base_keeps_Type. intros Ht. eexists.
  split; [| split; [| reflexivity]]; intros; done.
Qed.

(** The entries as a pass leaves them: those visited are merged, the
    others are as declared, and each visited entry accounts for two merge
    calls. *)
Lemma reconcileNodeAgents_store l todo seen w :
  ∃ visited,
    (top l seen todo w).1.1.2 = seen ++ visited ++ drop (length visited) todo ∧
    Forall2 merged (take (length visited) todo) visited ∧
    length (mergeCalls (top l seen todo w).2) = (2 * length visited)%nat ∧
    (todo ≠ [] → visited ≠ []).
Proof.
  revert seen w. induction todo as [|a rest IH]; intros seen w.
  - exists []. simpl. by rewrite app_nil_r.
  - entry a w; try discriminate.
    all: injection HM1 as <-; injection HM2 as <-.
    all: first [ pose proof (merged_windows _ Hwin) as Hm
               | pose proof (merged_linux _ Hwin) as Hm ].
    all: cbn [fst snd] in *.
    all: try (eexists [_]; cbn [length take drop app]; rewrite ?drop_0;
              split; [reflexivity |]; split; [by constructor |];
              split; [by rewrite !mergeCalls_merge, Hnm | done]).
    all: match goal with
         | |- context [reconcileNodeAgents _ _ _ _ ?l' ?seen' ?rest' ?w'] =>
           destruct (IH seen' w') as (visited & Hst & Hall & Hlen & _);
           destruct (top l' seen' rest' w') as [[[out agents] w2] evs']
         end.
    all: cbn [fst snd] in *; eexists (_ :: visited);
      cbn [length take drop]; split;
      [ by rewrite Hst, <- app_assoc
      | split; [by constructor |];
        split; [rewrite !mergeCalls_merge, mergeCalls_app, Hnm; cbn; lia
               | done] ].
Qed.

(** An entry that the pass visited is merged; one it did not visit is as
    declared. *)
Lemma Reconcile_entry l w i S S' :
  NodeAgents l !! i = Some S → (Reconcile l w).1.1.2 !! i = Some S' →
  ((2 * i < length (mergeCalls (Reconcile l w).2))%nat → merged S S') ∧
  (merged S S' ∨ S' = S).
Proof.
  unfold Reconciler_Reconcile.
  destruct (reconcileNodeAgents_store l (NodeAgents l) [] w)
    as (visited & Hst & Hall & Hlen & _).
  rewrite Hst, Hlen. cbn [app]. intros HS HS'.
  pose proof (Forall2_length _ _ _ Hall) as Hl.
  destruct (decide (i < length visited)%nat) as [Hi|Hi].
  - rewrite lookup_app_l in HS' by done.
    assert (HS2 : take (length visited) (NodeAgents l) !! i = Some S).
    { by rewrite lookup_take_lt. }
    pose proof (Forall2_lookup_lr _ _ _ _ _ _ Hall HS2 HS') as Hm. auto.
  - rewrite lookup_app_r, lookup_drop in HS' by lia.
    replace (length visited + (i - length visited))%nat with i in HS' by lia.
    split; [lia |]. right. congruence.
Qed.

Lemma Reconcile_length l w :
  length (Reconcile l w).1.1.2 = length (NodeAgents l).
Proof.
  unfold Reconciler_Reconcile.
  destruct (reconcileNodeAgents_store l (NodeAgents l) [] w)
    as (visited & Hst & Hall & _).
  rewrite Hst. cbn [app]. pose proof (Forall2_length _ _ _ Hall) as Hl.
  rewrite length_app, length_drop, <- Hl, length_take. lia.
Qed.

Lemma Reconcile_single l w S :
  NodeAgents l = [S] →
  ∃ S', (Reconcile l w).1.1.2 = [S'] ∧ merged S S' ∧
        length (mergeCalls (Reconcile l w).2) = 2%nat.
Proof.
  intros Hl. unfold Reconciler_Reconcile. rewrite Hl.
  destruct (reconcileNodeAgents_store l [S] [] w)
    as (visited & Hst & Hall & Hlen & Hne).
  rewrite Hst, Hlen. pose proof (Forall2_length _ _ _ Hall) as Hlv.
  destruct visited as [|S' [|? ?]]; [by destruct Hne | |].
  - exists S'. cbn in *. split; [done |]. split; [| done].
    by apply Forall2_cons_1 in Hall as [? _].
  - cbn in Hlv. lia.
Qed.

(** C1: the merge never changes a field that is set.  A field set in the
    destination holds the same value after a merge with any profile; every
    entry of the parent resource keeps, through the merges the top-level
    [Reconcile] performs, every field it had set; and a Windows entry whose
    spec sets the daemon's node selector to [{"pool": "infra"}] has that
    node selector after the Base merge and the Windows merge, and after the
    pass. *)
Theorem merge_keeps_set_fields :
  (∀ S P f, isSet (get f S) = true → get f (M S P).1 = get f S) ∧
  (∀ l w, Forall2 kept (NodeAgents l) (Reconcile l w).1.1.2) ∧
  (∀ S, Type_ S = "windows" →
        nodeSelectorOf S = Some {["pool" := "infra"]} →
        nodeSelectorOf
          (M (M S NodeAgentFluentbitDefaults).1
             NodeAgentFluentbitWindowsDefaults).1
        = Some {["pool" := "infra"]}) ∧
  (∀ l w i S S',
     NodeAgents l !! i = Some S → (Reconcile l w).1.1.2 !! i = Some S' →
     Type_ S = "windows" →
     nodeSelectorOf S = Some {["pool" := "infra"]} →
     nodeSelectorOf S' = Some {["pool" := "infra"]}).
Proof.
  assert (Hentry : ∀ l w i S S',
     NodeAgents l !! i = Some S → (Reconcile l w).1.1.2 !! i = Some S' →
     kept S S').
  { intros l w i S S' HS HS'.
    destruct (Reconcile_entry l w i S S' HS HS') as [_ [Hm | ->]].
    - by apply merged_kept.
    - apply kept_refl. }
  split; [| split; [| split]].
  - intros S P f. apply mergeNodeAgent_kept.
  - intros l w. apply Forall2_same_length_lookup. split.
    + symmetry. apply Reconcile_length.
    + intros i S S'. apply Hentry.
  - intros S _ Hsel. eapply kept_nodeSelector; [| exact Hsel].
    eapply kept_trans; apply mergeNodeAgent_kept.
  - intros l w i S S' HS HS' _ Hsel.
    eapply kept_nodeSelector; [| exact Hsel]. by eapply Hentry.
Qed.

(** What the pass does with an entry it visited: the Base merge, then the
    merge of the platform profile its type selects, and the result of the
    second merge is what the parent resource holds for it. *)
Lemma Reconcile_visited l w i S :
  NodeAgents l !! i = Some S →
  (2 * i < length (mergeCalls (Reconcile l w).2))%nat →
  ∃ P,
    (Type_ S = "windows" → P = NodeAgentFluentbitWindowsDefaults) ∧
    (Type_ S ≠ "windows" → P = NodeAgentFluentbitLinuxDefaults) ∧
    mergeCalls (Reconcile l w).2 !! (2 * i)%nat
    = Some (S, NodeAgentFluentbitDefaults,
            mergeNodeAgent S NodeAgentFluentbitDefaults) ∧
    mergeCalls (Reconcile l w).2 !! Datatypes.S (2 * i)
    = Some (mergeNodeAgent S NodeAgentFluentbitDefaults, P,
            mergeNodeAgent (mergeNodeAgent S NodeAgentFluentbitDefaults) P) ∧
    (Reconcile l w).1.1.2 !! i
    = Some (mergeNodeAgent (mergeNodeAgent S NodeAgentFluentbitDefaults) P).
Proof.
  intros HS Hi.
  assert (Hlt : (i < length (Reconcile l w).1.1.2)%nat).
  { rewrite Reconcile_length. by eapply lookup_lt_Some. }
  destruct (lookup_lt_is_Some_2 _ _ Hlt) as [S' HS'].
  destruct (Reconcile_entry l w i S S' HS HS') as [Hm _].
  destruct (Hm Hi) as (P & HW & HL & ->). exists P.
  split; [done |]. split; [done |].
  revert Hi HS'. unfold Reconciler_Reconcile.
  pose proof (reconcileNodeAgents_paired GroupVersionKindOf M resource
                ReconcileResource l (NodeAgents l) [] w) as Hp.
  pose proof (reconcileNodeAgents_faithful GroupVersionKindOf M resource
                ReconcileResource l (NodeAgents l) [] w) as Hf.
  destruct (reconcileNodeAgents_store l (NodeAgents l) [] w)
    as (visited & _ & _ & Hlen & _).
  intros Hi HS'.
  assert (Hodd : (Datatypes.S (2 * i)
                  < length (mergeCalls (top l [] (NodeAgents l) w).2))%nat)
    by lia.
  destruct (lookup_lt_is_Some_2 _ _ Hodd) as [[[d Q] d'] Hc].
  destruct (paired_lookup _ _ i Hp) as [_ H2].
  destruct (H2 _ _ _ Hc) as ((a & Ha & Hbase) & HQW & HQL).
  rewrite HS in Ha. injection Ha as <-.
  pose proof (proj1 (Forall_lookup _ _) Hf _ _ Hbase) as Hd.
  pose proof (proj1 (Forall_lookup _ _) Hf _ _ Hc) as Hd'.
  cbn in Hd, Hd'. subst d d'.
  assert (Q = P) as ->.
  { rewrite Base_keeps_Type in HQW, HQL.
    destruct (decide (Type_ S = "windows")) as [Ht|Ht].
    - by rewrite HQW, HW.
    - by rewrite HQL, HL. }
  done.
Qed.

(** C2, as the merge of the spec has it: the Base profile wins wherever
    the merge fills.  The merge calls of a pass go entry by entry, two per
    entry: the Base profile first (the calls at even positions) and one
    platform profile, Windows or Linux, second (the calls at odd
    positions).  An entry that went through them holds Base's value at
    every field position the merge visits (the name, the type, the labels,
    the [FluentbitSpec] pointer) that it had left unset and that Base sets.
    So every entry that leaves its [FluentbitSpec] unset ends with Base's
    [FluentbitSpec] as a whole, and with [Flush] 1 whatever its type,
    although the Linux profile says 3 and the Windows profile says 2.  An
    entry that sets its [FluentbitSpec] keeps it as it is: a field below
    it that the entry left unset is not filled from Base. *)
Theorem base_profile_wins :
  (∀ l w j a P a1,
     mergeCalls (Reconcile l w).2 !! (2 * j)%nat = Some (a, P, a1) →
     NodeAgents l !! j = Some a ∧ P = NodeAgentFluentbitDefaults) ∧
  (∀ l w j d P d',
     mergeCalls (Reconcile l w).2 !! S (2 * j) = Some (d, P, d') →
     (∃ a, NodeAgents l !! j = Some a ∧
           mergeCalls (Reconcile l w).2 !! (2 * j)%nat
           = Some (a, NodeAgentFluentbitDefaults, d)) ∧
     (P = NodeAgentFluentbitWindowsDefaults ∨
      P = NodeAgentFluentbitLinuxDefaults)) ∧
  (∀ l w i S S',
     NodeAgents l !! i = Some S → (Reconcile l w).1.1.2 !! i = Some S' →
     (2 * i < length (mergeCalls (Reconcile l w).2))%nat →
     ∀ f, isSet (get f S) = false →
          isSet (get f NodeAgentFluentbitDefaults) = true →
          get f S' = get f NodeAgentFluentbitDefaults) ∧
  (∀ l w i S S',
     NodeAgents l !! i = Some S → (Reconcile l w).1.1.2 !! i = Some S' →
     (2 * i < length (mergeCalls (Reconcile l w).2))%nat →
     FluentbitSpec S = None →
     FluentbitSpec S' = FluentbitSpec NodeAgentFluentbitDefaults ∧
     flushOf S' = Some 1) ∧
  (∀ l w i S S' fb,
     NodeAgents l !! i = Some S → (Reconcile l w).1.1.2 !! i = Some S' →
     FluentbitSpec S = Some fb →
     FluentbitSpec S' = Some fb ∧ flushOf S' = Some (Flush fb)) ∧
  (∀ l w name type,
     NodeAgents l = [ {| Name := name; Type_ := type;
                         Metadata := zero.ObjectMeta;
                         FluentbitSpec := None |} ] →
     flushOf <$> (Reconcile l w).1.1.2 = [Some 1]) ∧
  flushOf NodeAgentFluentbitDefaults = Some 1 ∧
  flushOf NodeAgentFluentbitLinuxDefaults = Some 3 ∧
  flushOf NodeAgentFluentbitWindowsDefaults = Some 2.
Proof.
  split; [| split; [| split; [| split; [| split; [| split; [| done]]]]]].
  - intros l w j a P a1 Hc. unfold Reconciler_Reconcile in *.
    pose proof (reconcileNodeAgents_paired GroupVersionKindOf M resource
                  ReconcileResource l (NodeAgents l) [] w) as Hp.
    destruct (paired_lookup _ _ j Hp) as [H1 _]. by apply (H1 _ _ _ Hc).
  - intros l w j d P d' Hc. unfold Reconciler_Reconcile in *.
    pose proof (reconcileNodeAgents_paired GroupVersionKindOf M resource
                  ReconcileResource l (NodeAgents l) [] w) as Hp.
    destruct (paired_lookup _ _ j Hp) as [_ H2].
    destruct (H2 _ _ _ Hc) as (Ha & HW & HL). split; [done |].
    destruct (decide (Type_ d = "windows")); auto.
  - intros l w i S S' HS HS' Hi.
    destruct (Reconcile_entry l w i S S' HS HS') as [Hm _].
    apply merged_filled. auto.
  - intros l w i S S' HS HS' Hi Hnil.
    destruct (Reconcile_entry l w i S S' HS HS') as [Hm _].
    destruct (Hm Hi) as (P & _ & _ & ->).
    unfold flushOf. cbn. rewrite Hnil. cbn. done.
  - intros l w i S S' fb HS HS' Hfb.
    assert (Hk : kept S S').
    { destruct (Reconcile_entry l w i S S' HS HS') as [_ [Hm | ->]].
      - by apply merged_kept.
      - apply kept_refl. }
    unfold flushOf. by rewrite (kept_FluentbitSpec _ _ _ Hk Hfb).
  - intros l w name type Hl.
    destruct (Reconcile_single l w _ Hl) as (S' & -> & (P & _ & _ & ->) & _).
    reflexivity.
Qed.

(** C3, as the merge of the spec has it: the merge fills what is empty,
    field position by field position.  A field position the merge visits
    (the name, the type, the labels, the [FluentbitSpec] pointer) that is
    unset in the destination and set in the profile holds the profile's
    value after the merge.  An unset [FluentbitSpec] is filled with the
    profile's as a whole, so every field below it reads as in the profile;
    a set [FluentbitSpec] is left as it is, and no field below it is
    filled.  Over a store, the merge reads as the merge on values; the
    pointer it fills is the address of a new cell with the content of the
    profile's cell, and a later write to that cell changes nothing that
    was readable in the store before the merge, the profile included.  In
    a pass of the top-level [Reconcile], an entry that leaves its
    [FluentbitSpec] unset and whose type is not "windows" goes through the
    Base merge and then the Linux merge, and ends with everything the Base
    profile sets: [Flush] 1, [LogLevel] "info", the buffer [StoragePath]
    "/buffers", the container image "fluent/fluent-bit:1.6.8"; so does the
    one entry of a parent resource whose entry sets nothing at all. *)
Theorem merge_fills_unset_fields :
  (∀ S P f, isSet (get f S) = false → isSet (get f P) = true →
            get f (M S P).1 = get f P) ∧
  (∀ S P, FluentbitSpec S = None →
          FluentbitSpec (M S P).1 = FluentbitSpec P ∧
          flushOf (M S P).1 = flushOf P ∧
          logLevelOf (M S P).1 = logLevelOf P ∧
          storagePathOf (M S P).1 = storagePathOf P ∧
          imagesOf (M S P).1 = imagesOf P) ∧
  (∀ S P fb, FluentbitSpec S = Some fb →
             FluentbitSpec (M S P).1 = Some fb) ∧
  (∀ h dst src D P,
     store.view h dst = Some D → store.view h src = Some P →
     store.view (store.Merge h dst src).1 (store.Merge h dst src).2
     = Some (M D P).1) ∧
  (∀ h dst src p fb,
     store.FluentbitSpec dst = None → store.FluentbitSpec src = Some p →
     h !! p = Some fb →
     ∃ q, store.FluentbitSpec (store.Merge h dst src).2 = Some q ∧
          q ≠ p ∧ h !! q = None ∧
          (store.Merge h dst src).1 !! q = Some fb ∧
          ∀ fb' a V,
            store.view h a = Some V →
            store.view (store.Merge h dst src).1 a = Some V ∧
            store.view (<[q := fb']> (store.Merge h dst src).1) a = Some V) ∧
  (∀ l w i S,
     NodeAgents l !! i = Some S →
     (2 * i < length (mergeCalls (Reconcile l w).2))%nat →
     FluentbitSpec S = None → Type_ S ≠ "windows" →
     ∃ S1 S',
       mergeCalls (Reconcile l w).2 !! (2 * i)%nat
       = Some (S, NodeAgentFluentbitDefaults, S1) ∧
       mergeCalls (Reconcile l w).2 !! Datatypes.S (2 * i)
       = Some (S1, NodeAgentFluentbitLinuxDefaults, S') ∧
       (Reconcile l w).1.1.2 !! i = Some S' ∧
       FluentbitSpec S' = FluentbitSpec NodeAgentFluentbitDefaults ∧
       flushOf S' = Some 1 ∧
       logLevelOf S' = Some "info" ∧
       storagePathOf S' = Some "/buffers" ∧
       imagesOf S' = Some ["fluent/fluent-bit:1.6.8"]) ∧
  (∀ l w,
     NodeAgents l = [zero.NodeAgent] →
     ∃ S1 S',
       (Reconcile l w).1.1.2 = [S'] ∧
       mergeCalls (Reconcile l w).2
       = [ (zero.NodeAgent, NodeAgentFluentbitDefaults, S1);
           (S1, NodeAgentFluentbitLinuxDefaults, S') ] ∧
       FluentbitSpec S' = FluentbitSpec NodeAgentFluentbitDefaults ∧
       flushOf S' = Some 1 ∧
       logLevelOf S' = Some "info" ∧
       storagePathOf S' = Some "/buffers" ∧
       imagesOf S' = Some ["fluent/fluent-bit:1.6.8"]).
Proof.
  split; [| split; [| split; [| split; [| split; [| split]]]]].
  - intros S P f. apply mergeNodeAgent_filled.
  - intros S P Hnil.
    assert (H : FluentbitSpec (M S P).1 = FluentbitSpec P)
      by (cbn; by rewrite Hnil).
    unfold flushOf, logLevelOf, storagePathOf, imagesOf, podSpecOf.
    by rewrite H.
  - intros S P fb Hfb. cbn. by rewrite Hfb.
  - intros h dst src D P. apply store_Merge_view.
  - intros h dst src p fb Hd Hs Hp.
    destruct (store_Merge_fresh h dst src p fb Hd Hs Hp)
      as (q & Hq & Hne & Hnew & Hcell & Hw).
    exists q. repeat (split; [done |]).
    intros fb' a V HV. split; [by apply store_Merge_frame | by apply Hw].
  - intros l w i S HS Hi Hnil Ht.
    destruct (Reconcile_visited l w i S HS Hi)
      as (P & _ & HL & Hbase & Hplat & Hres).
    rewrite (HL Ht) in *.
    eexists _, _. split; [exact Hbase |]. split; [exact Hplat |].
    split; [exact Hres |].
    unfold flushOf, logLevelOf, storagePathOf, imagesOf, podSpecOf.
    cbn. rewrite Hnil. cbn. done.
  - intros l w Hl.
    destruct (Reconcile_single l w _ Hl) as (S' & HS' & (P & _ & HP & ->) & Hlen).
    rewrite (HP ltac:(done)) in *. clear HP.
    unfold Reconciler_Reconcile in *. rewrite Hl in *.
    pose proof (reconcileNodeAgents_paired GroupVersionKindOf M resource
                  ReconcileResource l [zero.NodeAgent] [] w) as Hp.
    pose proof (reconcileNodeAgents_faithful GroupVersionKindOf M resource
                  ReconcileResource l [zero.NodeAgent] [] w) as Hf.
    destruct (mergeCalls _) as [|c1 [|c2 [|? ?]]]; try discriminate.
    inversion Hp as [| |a rest a1 P' a2 calls HW HL _]; subst.
    apply Forall_cons in Hf as [H1 Hf]. apply Forall_cons in Hf as [H2 _].
    cbn in H1, H2. subst a1.
    rewrite (HL ltac:(done)) in *. subst a2.
    eexists _, _. split; [exact HS' |]. split; [reflexivity |]. done.
Qed.

End SpecMerge.

(** ** Naming *)

(** C10: a service account named in the merged spec takes precedence over
    the qualified name.  For an instance whose spec has its
    [FluentbitSpec] and [Security] in place, [getServiceAccount] returns
    the [ServiceAccount] of the spec when that is not the empty string,
    and the qualified name "<parent-name>-<node-agent-name>-fluentbit"
    when it is. *)
Theorem service_account_override n fb sec :
  v1beta1.FluentbitSpec (nodeAgent n) = Some fb →
  v1beta1.Security_ fb = Some sec →
  (v1beta1.ServiceAccount sec ≠ "" →
   getServiceAccount n = Some (v1beta1.ServiceAccount sec)) ∧
  (v1beta1.ServiceAccount sec = "" →
   getServiceAccount n
   = Some (v1beta1.LoggingName (logging n) +:+ "-" +:+
           v1beta1.Name (nodeAgent n) +:+ "-fluentbit")).
Proof.
  intros Hfb Hsec. unfold getServiceAccount. rewrite Hfb. simpl.
  rewrite Hsec. simpl. split; intros H.
  - by rewrite decide_True.
  - by rewrite decide_False by (by intros []).
Qed.

(** ** The statements at work on the samples *)

Section Samples.
Import v1beta1 Sample.

(** The third apply call asks for a requeue: the pass stops there. *)
Lemma pipeline_short_circuit_witness :
  let run := nodeAgentInstance_Reconcile kindOf build (requeueAt 5)
               anInstance 0%nat in
  let pre := [ built anInstance serviceAccount "ServiceAccount";
               settled anInstance "ServiceAccount";
               built anInstance clusterRole "ClusterRole";
               settled anInstance "ClusterRole";
               built anInstance clusterRoleBinding "ClusterRoleBinding" ] in
  run.2 = pre ++ ApplyCall anInstance "ClusterRoleBinding" true
                   (Some 30%nat) None :: [] ∧
  run.1.1 = (Some 30%nat, None) ∧
  invoked run.2 = [serviceAccount; clusterRole; clusterRoleBinding].
Proof.
  intros run pre.
  assert (H : run.2 = pre ++ ApplyCall anInstance "ClusterRoleBinding" true
                               (Some 30%nat) None :: []).
  { vm_compute. reflexivity. }
  destruct (pipeline_short_circuit kindOf build (requeueAt 5) anInstance
              0%nat pre "ClusterRoleBinding" true 30%nat [] H)
    as (_ & Hout & Hinv & _).
  split; [exact H |]. split; [exact Hout |].
  exact (eq_trans Hinv eq_refl).
Defined.

(** The second factory returns a nil object: the pass stops there, the
    apply primitive having been called for the first factory only. *)
Lemma nil_object_is_fatal_witness :
  let run := nodeAgentInstance_Reconcile kindOf (buildNilAt 2) settle
               anInstance 0%nat in
  let pre := [ built anInstance serviceAccount "ServiceAccount";
               settled anInstance "ServiceAccount" ] in
  run.2 = pre ++ FactoryCall anInstance clusterRole None true None :: [] ∧
  run.1.1 =
    (None,
     Some (Errorf "Reconcile error! Resource %#v returns with nil object"
                  clusterRole)) ∧
  applied run.2 = ["ServiceAccount"] ∧
  invoked run.2 = [serviceAccount; clusterRole].
Proof.
  intros run pre.
  assert (H : run.2 = pre ++ FactoryCall anInstance clusterRole None true None
                        :: []).
  { vm_compute. reflexivity. }
  destruct (nil_object_is_fatal kindOf (buildNilAt 2) settle anInstance
              0%nat pre clusterRole true [] H)
    as (_ & Hout & Happ & Hinv & _).
  split; [exact H |]. split; [exact Hout |].
  split; [exact (eq_trans Happ eq_refl) | exact (eq_trans Hinv eq_refl)].
Defined.

(** The first factory fails for the first of two entries: the error names
    that entry and the second entry is left as declared. *)
Lemma isolation_on_failure_witness :
  let run := Reconciler_Reconcile kindOf mergo.Merge (buildFailingAt 0)
               settle twoEntries 0%nat in
  let a1 := mergo.mergeNodeAgent (entry "a" "") NodeAgentFluentbitDefaults in
  let pre := [ MergeCall (entry "a" "") NodeAgentFluentbitDefaults a1 None;
               MergeCall a1 NodeAgentFluentbitLinuxDefaults
                 (nodeAgent firstOfTwo) None ] in
  let ev := FactoryCall firstOfTwo serviceAccount None true
              (Some (Foreign "cannot build")) in
  let e := WrapIf (Foreign "cannot build") "failed to create desired object" in
  (run.2 = pre ++ ev :: [] ∧
   instanceOf ev = Some firstOfTwo ∧
   instanceVerdict kindOf ev = Some (None, Some e)) ∧
  run.1.1.1 =
    (None,
     Some (WrapWithDetails e "failed to reconcile instances"
             "NodeName" (DetailString "a"))) ∧
  run.1.1.2 !! 1%nat = Some (entry "b" "windows") ∧
  length (mergeCalls run.2) = 2%nat.
Proof.
  intros run a1 pre ev e.
  assert (H : run.2 = pre ++ ev :: []) by (vm_compute; reflexivity).
  assert (Hn : instanceOf ev = Some firstOfTwo) by reflexivity.
  assert (Hv : instanceVerdict kindOf ev = Some (None, Some e)) by reflexivity.
  destruct (isolation_on_failure kindOf mergo.Merge (buildFailingAt 0) settle
              twoEntries 0%nat pre ev [] firstOfTwo None e H Hn Hv)
    as (_ & Hout & i & _ & _ & Hlen).
  split; [done |]. split; [exact Hout |].
  split; vm_compute; reflexivity.
Defined.

(** Both entries of [twoEntries] are visited; the second one is a Windows
    entry and is merged with the Windows profile. *)
Lemma platform_profile_selection_witness :
  let run := Reconciler_Reconcile kindOf mergo.Merge build settle
               twoEntries 0%nat in
  let d := mergo.mergeNodeAgent (entry "b" "windows")
             NodeAgentFluentbitDefaults in
  let d' := mergo.mergeNodeAgent d NodeAgentFluentbitWindowsDefaults in
  mergeCalls run.2 !! 3%nat
  = Some (d, NodeAgentFluentbitWindowsDefaults, d') ∧
  NodeAgents twoEntries !! 1%nat = Some (entry "b" "windows") ∧
  Type_ d = "windows".
Proof.
  intros run d d'.
  assert (H : mergeCalls run.2 !! S (2 * 1)
              = Some (d, NodeAgentFluentbitWindowsDefaults, d')).
  { vm_compute. reflexivity. }
  destruct (platform_profile_selection kindOf mergo.Merge build settle
              twoEntries 0%nat 1%nat d NodeAgentFluentbitWindowsDefaults d' H)
    as ((a & Ha & Hcall & Hd) & HW & _).
  split; [exact H |]. split; [| reflexivity].
  pose proof (HW eq_refl) as _. reflexivity.
Defined.

(** The apply primitive fails on the first object: the error comes back
    with the kind of the object and the name of the entry. *)
Lemma errors_abort_the_pass_witness :
  let run := Reconciler_Reconcile kindOf mergo.Merge build (failAt 1)
               (parent [entry "a" ""]) 0%nat in
  let e := WrapWithDetails
             (WrapWithDetails (Foreign "conflict")
                "failed to reconcile resource"
                "resource" (DetailKind "ServiceAccount"))
             "failed to reconcile instances"
             "NodeName" (DetailString "a") in
  run.1.1.1 = (None, Some e) ∧
  ∃ pre ev, run.2 = pre ++ [ev] ∧ Forall (λ ev, errorOf ev = None) pre ∧
            errorOf ev = Some (Foreign "conflict").
Proof.
  intros run e.
  assert (H : run.1.1.1 = (None, Some e)) by (vm_compute; reflexivity).
  destruct (errors_abort_the_pass kindOf mergo.Merge build (failAt 1)
              (parent [entry "a" ""]) 0%nat None e H)
    as (_ & pre & ev & Hevs & Hpre & Hcase).
  split; [exact H |]. exists pre, ev. split; [exact Hevs |].
  split; [exact Hpre |].
  pose proof (f_equal last Hevs) as Hlast. rewrite last_snoc in Hlast.
  vm_compute in Hlast. by injection Hlast as <-.
Defined.

(** C9 as the claim words it fails on a merge error: the error comes back
    as the merge returned it, with no node-agent name in its details. *)
Lemma merge_error_lacks_node_name :
  let run := Reconciler_Reconcile kindOf failingMerge build settle
               (parent [entry "a" ""]) 0%nat in
  ¬ (∀ res e, run.1.1.1 = (res, Some e) →
              ∃ name, ("NodeName", DetailString name) ∈ details e).
Proof.
  intros run Hclaim.
  destruct (Hclaim None (Foreign "src and dst must be of same type")
              eq_refl) as [name Hin].
  simpl in Hin. by apply elem_of_nil in Hin.
Qed.

(** An entry that names its service account gets that account. *)
Lemma service_account_override_witness :
  FluentbitSpec (nodeAgent ownInstance) = Some ownFluentbit ∧
  Security_ ownFluentbit = Some ownSecurity ∧
  ServiceAccount ownSecurity ≠ "" ∧
  getServiceAccount ownInstance = Some "collector".
Proof.
  assert (H1 : FluentbitSpec (nodeAgent ownInstance) = Some ownFluentbit)
    by reflexivity.
  assert (H2 : Security_ ownFluentbit = Some ownSecurity) by reflexivity.
  assert (H3 : ServiceAccount ownSecurity ≠ "") by discriminate.
  destruct (service_account_override ownInstance ownFluentbit ownSecurity
              H1 H2) as [Hset _].
  split; [exact H1 |]. split; [exact H2 |]. split; [exact H3 |].
  exact (Hset H3).
Defined.

(** An entry that names no service account gets the qualified name. *)
Example qualified_service_account :
  getServiceAccount anInstance = Some "logs-a-fluentbit".
Proof. reflexivity. Qed.

(** A spec that sets its [FluentbitSpec] without a [Security] keeps it that
    way through the merges of the spec, and [getServiceAccount] then has
    nothing to read. *)
Example no_backfill_below_a_set_pointer :
  getServiceAccount
    {| nodeAgent := mergedWith NodeAgentFluentbitWindowsDefaults infraPool;
       logging := parent [infraPool] |} = None.
Proof. reflexivity. Qed.

(** The node selector of [infraPool] after a pass over it. *)
Example infraPool_keeps_its_node_selector :
  nodeSelectorOf <$>
    (Reconciler_Reconcile kindOf mergo.Merge build settle
       (parent [infraPool]) 0%nat).1.1.2
  = [Some {["pool" := "infra"]}].
Proof. vm_compute. reflexivity. Qed.

(** An entry that sets nothing ends with the Base values, on Linux and on
    Windows. *)
Example empty_entries_get_Base_values :
  (λ a, (flushOf a, logLevelOf a, storagePathOf a, imagesOf a)) <$>
    (Reconciler_Reconcile kindOf mergo.Merge build settle twoEntries
       0%nat).1.1.2
  = [ (Some 1, Some "info", Some "/buffers", Some ["fluent/fluent-bit:1.6.8"]);
      (Some 1, Some "info", Some "/buffers", Some ["fluent/fluent-bit:1.6.8"]) ].
Proof. vm_compute. reflexivity. Qed.

(** A pass in which everything settles invokes the ten factories once per
    entry, in order. *)
Example full_pass_invokes_all :
  let run := Reconciler_Reconcile kindOf mergo.Merge build settle
               twoEntries 0%nat in
  run.1.1.1 = (None, None) ∧ invoked run.2 = factories ++ factories.
Proof. vm_compute. split; reflexivity. Qed.

End Samples.

(** * More of the package *)

(** ** Names *)

Lemma length_append (s t : string) :
  String.length (s +:+ t) = (String.length s + String.length t)%nat.
Proof.
  induction s as [|c s IH]; [done |].
  change (S (String.length (s +:+ t))
          = S (String.length s + String.length t)). by rewrite IH.
Qed.

Lemma dash_split s1 r1 s2 r2 :
  dashFree s1 = true → dashFree s2 = true →
  s1 +:+ String "-" r1 = s2 +:+ String "-" r2 → s1 = s2 ∧ r1 = r2.
Proof.
  revert s2. induction s1 as [|c s1 IH]; intros [|c' s2] H1 H2 Heq;
    cbn in H1, H2.
  - change (String "-" r1 = String "-" r2) in Heq. by injection Heq as ->.
  - change (String "-" r1 = String c' (s2 +:+ String "-" r2)) in Heq.
    injection Heq as <- _. done.
  - change (String c (s1 +:+ String "-" r1) = String "-" r2) in Heq.
    injection Heq as -> _. done.
  - change (String c (s1 +:+ String "-" r1)
            = String c' (s2 +:+ String "-" r2)) in Heq.
    injection Heq as -> Heq.
    destruct (Ascii.eqb c' "-"%char); [done |].
    destruct (IH s2 H1 H2 Heq) as [-> ->]. done.
Qed.

(** X13: a qualified name is as long as the parent's name, the node
    agent's name and the suffix together, plus the two dashes. *)
Theorem QualifiedName_length n name :
  String.length (QualifiedName n name)
  = (String.length (v1beta1.LoggingName (logging n))
     + String.length (v1beta1.Name (nodeAgent n))
     + String.length name + 2)%nat.
Proof.
  unfold QualifiedName. rewrite !length_append. cbn [String.length]. lia.
Qed.

(** X14: when neither the parents' names nor the node agents' names
    contain a dash, equal qualified names come from equal parent names,
    equal node-agent names and equal suffixes. *)
Theorem QualifiedName_injective n n' name name' :
  dashFree (v1beta1.LoggingName (logging n)) = true →
  dashFree (v1beta1.LoggingName (logging n')) = true →
  dashFree (v1beta1.Name (nodeAgent n)) = true →
  dashFree (v1beta1.Name (nodeAgent n')) = true →
  QualifiedName n name = QualifiedName n' name' →
  v1beta1.LoggingName (logging n) = v1beta1.LoggingName (logging n') ∧
  v1beta1.Name (nodeAgent n) = v1beta1.Name (nodeAgent n') ∧
  name = name'.
Proof.
  intros HL HL' HN HN' Heq. unfold QualifiedName in Heq.
  destruct (dash_split _ _ _ _ HL HL' Heq) as [-> Hrest].
  destruct (dash_split _ _ _ _ HN HN' Hrest) as [-> ->]. done.
Qed.

(** X15: with dashes in the names, two instances with different parents
    and different node agents can share every qualified name. *)
Theorem QualifiedName_collides :
  ∃ n n',
    v1beta1.LoggingName (logging n) ≠ v1beta1.LoggingName (logging n') ∧
    v1beta1.Name (nodeAgent n) ≠ v1beta1.Name (nodeAgent n') ∧
    ∀ name, QualifiedName n name = QualifiedName n' name.
Proof.
  exists (MoreSamples.instanceNamed "a-b" "c"),
    (MoreSamples.instanceNamed "a" "b-c").
  split; [discriminate |]. split; [discriminate |]. reflexivity.
Qed.

(** X16: [getServiceAccount] panics exactly when the [FluentbitSpec]
    pointer or the [Security] pointer below it is nil, and what it returns
    is never the empty string. *)
Theorem getServiceAccount_result n :
  (getServiceAccount n = None ↔
   v1beta1.FluentbitSpec (nodeAgent n) = None ∨
   ∃ fb, v1beta1.FluentbitSpec (nodeAgent n) = Some fb ∧
         v1beta1.Security_ fb = None) ∧
  (∀ s, getServiceAccount n = Some s → s ≠ "").
Proof.
  unfold getServiceAccount.
  destruct (v1beta1.FluentbitSpec (nodeAgent n)) as [fb|]; simpl.
  2:{ split; [split; auto | done]. }
  destruct (v1beta1.Security_ fb) as [sec|] eqn:Hsec; simpl.
  2:{ split; [split; eauto | done]. }
  split.
  - split.
    + by case_decide.
    + intros [[=] | (fb' & [= <-] & Hnone)]. congruence.
  - intros s. case_decide; intros [= <-]; [done |].
    unfold QualifiedName.
    by destruct (v1beta1.LoggingName (logging n)).
Qed.

Lemma QualifiedName_injective_witness :
  let n := MoreSamples.instanceNamed "logs" "a" in
  let n' := MoreSamples.instanceNamed "logs" "a" in
  (dashFree (v1beta1.LoggingName (logging n)) = true ∧
   dashFree (v1beta1.LoggingName (logging n')) = true ∧
   dashFree (v1beta1.Name (nodeAgent n)) = true ∧
   dashFree (v1beta1.Name (nodeAgent n')) = true ∧
   QualifiedName n "fluentbit" = QualifiedName n' "fluentbit") ∧
  v1beta1.LoggingName (logging n) = v1beta1.LoggingName (logging n').
Proof.
  intros n n'.
  destruct (QualifiedName_injective n n' "fluentbit" "fluentbit"
              eq_refl eq_refl eq_refl eq_refl eq_refl) as (HL & _ & _).
  split; [done | exact HL].
Defined.

(** ** More on the instance pass *)

Section MoreInstanceFacts.
Context {World Object DesiredState Result GroupVersionKind : Type}.
Local Abbreviation error := (error GroupVersionKind).
Local Abbreviation Event := (@Event Object DesiredState Result GroupVersionKind).
Variable GroupVersionKindOf : Object → GroupVersionKind.
Variable resource :
  Factory → nodeAgentInstance → World →
  (option Object * DesiredState * option error) * World.
Variable ReconcileResource :
  Object → DesiredState → World → (option Result * option error) * World.

Local Abbreviation loop :=
  (reconcileResources GroupVersionKindOf resource ReconcileResource).
Local Abbreviation instance :=
  (nodeAgentInstance_Reconcile GroupVersionKindOf resource ReconcileResource).
Local Abbreviation IV :=
  (@instanceVerdict Object DesiredState Result GroupVersionKind
     GroupVersionKindOf).

Ltac turn :=
  match goal with
  | |- context [resource ?f ?n ?w] =>
    destruct (resource f n w) as [[[[o|] st] [e|]] w1] eqn:Hres
  end;
  try match goal with
  | |- context [ReconcileResource ?o ?st ?w] =>
    destruct (ReconcileResource o st w) as [[[r|] [e'|]] w2] eqn:Happ
  end.

(** The apply primitive is only ever given what the factory call just
    before it built. *)
Lemma reconcileResources_apply_follows n fs w pre n' obj state result err post :
  (loop n fs w).2 = pre ++ ApplyCall n' obj state result err :: post →
  ∃ pre' f, pre = pre' ++ [FactoryCall n f (Some obj) state None] ∧
            n' = n ∧ f ∈ fs.
Proof.
  revert w pre. induction fs as [|f fs IH]; intros w pre; simpl.
  - by destruct pre.
  - turn; simpl.
    all: try (destruct pre as [|? [|? ?]]; intros [=]; fail).
    all: try (destruct pre as [|? [|? [|? ?]]]; intros [=]; subst;
              exists [], f; split; [done |]; split; [done |];
              apply list_elem_of_here; fail).
    specialize (IH w2).
    destruct (loop n fs w2) as [[out w3] evs]. simpl in *.
    destruct pre as [|? [|? pre]]; intros [=]; subst.
    + exists [], f. split; [done |]. split; [done |]. apply list_elem_of_here.
    + destruct (IH pre ltac:(done)) as (pre' & f' & -> & -> & Hin).
      eexists (_ :: _ :: pre'), f'. split; [done |]. split; [done |].
      by apply list_elem_of_further.
Qed.

Lemma reconcileResources_applied_all n fs w :
  (loop n fs w).1.1 = (None, None) →
  length (applied (loop n fs w).2) = length fs.
Proof.
  revert w. induction fs as [|f fs IH]; intros w; simpl; [done |].
  turn; simpl; try done.
  specialize (IH w2).
  destruct (loop n fs w2) as [[out w3] evs]. simpl in *.
  intros H. by rewrite IH.
Qed.

Lemma instance_invoked n w :
  invoked (instance n w).2 `prefix_of` factories ∧
  ((instance n w).1.1 = (None, None) →
   invoked (instance n w).2 = factories ∧
   length (applied (instance n w).2) = length factories).
Proof.
  destruct (reconcileResources_invoked GroupVersionKindOf resource
              ReconcileResource n factories w) as [H1 H2].
  split; [done |]. intros H. split; [by apply H2 |].
  by apply reconcileResources_applied_all.
Qed.

(** X11: the apply primitive is only called on an object that the factory
    call directly before it returned, without an error, for the same
    instance and with the desired state that factory returned. *)
Theorem apply_gets_what_was_built n w pre n' o state result err post :
  (instance n w).2 = pre ++ ApplyCall n' o state result err :: post →
  ∃ pre' f, pre = pre' ++ [FactoryCall n f (Some o) state None] ∧
            n' = n ∧ f ∈ factories.
Proof. apply reconcileResources_apply_follows. Qed.

(** X3: an error of the apply primitive wins over a result that comes with
    it: the call is the last one of the pass, and the pass returns a nil
    result with the error, wrapped with the kind of the object. *)
Theorem apply_error_drops_the_result n w pre o state result e0 post :
  (nodeAgentInstance_Reconcile GroupVersionKindOf resource
     ReconcileResource n w).2
  = pre ++ ApplyCall n o state result (Some e0) :: post →
  post = [] ∧
  (nodeAgentInstance_Reconcile GroupVersionKindOf resource
     ReconcileResource n w).1.1 =
    (None,
     Some (WrapWithDetails e0 "failed to reconcile resource"
             "resource" (DetailKind (GroupVersionKindOf o)))).
Proof.
  intros Hevs.
  pose proof (reconcileResources_runs GroupVersionKindOf resource
                ReconcileResource n factories w) as Hr.
  fold (instance n w) in Hr.
  apply (runs_stop_last _ _ _ _ _ _ _ Hr Hevs). by destruct result.
Qed.

(** X4: an error of a factory ends the pass at that call, whether or not
    an object comes with it: nothing is applied for that factory, no later
    factory is invoked, and the pass returns a nil result with the error
    wrapped as "failed to create desired object". *)
Theorem construction_error_aborts n w pre f o state e0 post :
  (instance n w).2 = pre ++ FactoryCall n f o state (Some e0) :: post →
  post = [] ∧
  (instance n w).1.1 =
    (None, Some (WrapIf e0 "failed to create desired object")) ∧
  applied (instance n w).2 = applied pre ∧
  invoked (instance n w).2 = take (S (length (invoked pre))) factories.
Proof.
  intros Hevs.
  pose proof (reconcileResources_runs GroupVersionKindOf resource
                ReconcileResource n factories w) as Hr.
  destruct (reconcileResources_invoked GroupVersionKindOf resource
              ReconcileResource n factories w) as [Hpre _].
  fold (instance n w) in Hr, Hpre.
  assert (Hv : IV (FactoryCall n f o state (Some e0))
               = Some (None, Some (WrapIf e0 "failed to create desired object")))
    by (by destruct o).
  destruct (runs_stop_last _ _ _ _ _ _ _ Hr Hevs Hv) as [-> Hout].
  assert (Hlen : length (invoked (instance n w).2) = S (length (invoked pre))).
  { rewrite Hevs, invoked_app, length_app. simpl. lia. }
  split; [done |]. split; [done |]. split.
  - rewrite Hevs, applied_app. simpl. by rewrite app_nil_r.
  - rewrite <- Hlen. by apply prefix_take.
Qed.

End MoreInstanceFacts.

(** ** More on the top-level pass *)

(** What is known of the instance pass of the current entry, once
    [entry] has gone through it. *)
Ltac instance_more :=
  match goal with
  | HI : nodeAgentInstance_Reconcile ?g ?r ?R ?n ?w = _ |- _ =>
    pose proof (instance_invoked g r R n w) as Hinv;
    rewrite HI in Hinv; cbn [fst snd] in Hinv
  end.

Lemma split_at {A} (pre post l1 l2 : list A) x :
  pre ++ x :: post = l1 ++ l2 →
  (∃ q, l1 = pre ++ x :: q ∧ post = q ++ l2) ∨
  (∃ p, pre = l1 ++ p ∧ l2 = p ++ x :: post).
Proof.
  intros Heq. apply app_eq_inv in Heq as [(k & -> & Hk) | (k & -> & Hk)].
  - right. eauto.
  - destruct k as [|y k]; simpl in Hk.
    + right. exists []. rewrite !app_nil_r. by split.
    + injection Hk as Hx Hpost. subst. left. by exists k.
Qed.

Section MoreTopFacts.
Context {World Object DesiredState Result GroupVersionKind : Type}.
Local Abbreviation error := (error GroupVersionKind).
Local Abbreviation Event := (@Event Object DesiredState Result GroupVersionKind).
Local Abbreviation Outcome := (@Outcome Result GroupVersionKind).
Import v1beta1.
Variable GroupVersionKindOf : Object → GroupVersionKind.
Variable Merge : NodeAgent → NodeAgent → NodeAgent * option error.
Variable resource :
  Factory → nodeAgentInstance → World →
  (option Object * DesiredState * option error) * World.
Variable ReconcileResource :
  Object → DesiredState → World → (option Result * option error) * World.

Local Abbreviation instance :=
  (nodeAgentInstance_Reconcile GroupVersionKindOf resource ReconcileResource).
Local Abbreviation top :=
  (reconcileNodeAgents GroupVersionKindOf Merge resource ReconcileResource).
Local Abbreviation Reconcile :=
  (Reconciler_Reconcile GroupVersionKindOf Merge resource ReconcileResource).
Local Abbreviation IV :=
  (@instanceVerdict Object DesiredState Result GroupVersionKind
     GroupVersionKindOf).
Local Abbreviation TV :=
  (@verdict Object DesiredState Result GroupVersionKind GroupVersionKindOf).

Lemma passesOn_quiet (ev : Event) : passesOn ev ↔ TV ev = None.
Proof.
  destruct ev as [? ? ? [?|]|? ? [?|] ? [?|]|? ? ? [?|] [?|]]; simpl;
    split; try done; try (by intros [? ?]); try (by intros [? []]).
Qed.

Lemma invoked_merge d s d' e (evs : list Event) :
  invoked (MergeCall d s d' e :: evs) = invoked evs.
Proof. reflexivity. Qed.

Lemma applied_merge d s d' e (evs : list Event) :
  applied (MergeCall d s d' e :: evs) = applied evs.
Proof. reflexivity. Qed.

(** X1: neither pass ever returns a result together with an error. *)
Theorem result_and_error_exclude_each_other :
  (∀ n w r e,
     (nodeAgentInstance_Reconcile GroupVersionKindOf resource
        ReconcileResource n w).1.1 ≠ (Some r, Some e)) ∧
  (∀ l w r e,
     (Reconciler_Reconcile GroupVersionKindOf Merge resource
        ReconcileResource l w).1.1.1 ≠ (Some r, Some e)).
Proof.
  split.
  - intros n w r e H.
    pose proof (reconcileResources_runs GroupVersionKindOf resource
                  ReconcileResource n factories w) as Hr.
    fold (instance n w) in Hr. rewrite H in Hr.
    destruct Hr as [[_ [=]] | (pre & ev & _ & _ & Hv & _)].
    by destruct ev as [? ? ? [?|]|? ? [?|] ? [?|]|? ? ? [?|] [?|]].
  - intros l w r e H. unfold Reconciler_Reconcile in H.
    pose proof (reconcileNodeAgents_runs GroupVersionKindOf Merge resource
                  ReconcileResource l (NodeAgents l) [] w) as Hr.
    rewrite H in Hr.
    destruct Hr as [[_ [=]] | (pre & ev & _ & _ & Hv & _)].
    by destruct ev as [? ? ? [?|]|? ? [?|] ? [?|]|? ? ? [?|] [?|]].
Qed.

(** X2: a requeue result of the apply primitive ends the whole top-level
    pass: the call is the last one, [Reconcile] returns that result with a
    nil error, and the entries after the one being reconciled are as
    declared, with no merge call made for them. *)
Theorem requeue_stops_every_entry l w pre n o state result post :
  (Reconcile l w).2 = pre ++ ApplyCall n o state (Some result) None :: post →
  post = [] ∧
  (Reconcile l w).1.1.1 = (Some result, None) ∧
  ∃ i, (Reconcile l w).1.1.2 !! i = Some (nodeAgent n) ∧
       drop (S i) (Reconcile l w).1.1.2 = drop (S i) (NodeAgents l) ∧
       length (mergeCalls (Reconcile l w).2) = (2 * S i)%nat.
Proof.
  intros Hevs. unfold Reconciler_Reconcile in *.
  pose proof (reconcileNodeAgents_runs GroupVersionKindOf Merge resource
                ReconcileResource l (NodeAgents l) [] w) as Hr.
  destruct (runs_stop_last _ _ _ _ _ _ _ Hr Hevs eq_refl) as [-> Hout].
  split; [done |]. split; [done |].
  assert (Hlast : last (top l [] (NodeAgents l) w).2
                  = Some (ApplyCall n o state (Some result) None)).
  { by rewrite Hevs, last_snoc. }
  destruct (reconcileNodeAgents_located GroupVersionKindOf Merge resource
              ReconcileResource l _ _ _ _ _ Hlast eq_refl)
    as (i & _ & Hlook & Hdrop & Hlen).
  exists i. cbn [length] in Hlen.
  replace (S i - 0)%nat with (S i) in Hlen by lia. done.
Qed.

(** X5: the top-level pass returns a nil result and a nil error exactly
    when every call it made lets it go on: no call returned an error, no
    factory returned a nil object, and the apply primitive returned no
    result. *)
Theorem continue_iff_every_call_passes l w :
  (Reconcile l w).1.1.1 = (None, None) ↔ Forall passesOn (Reconcile l w).2.
Proof.
  unfold Reconciler_Reconcile.
  pose proof (reconcileNodeAgents_runs GroupVersionKindOf Merge resource
                ReconcileResource l (NodeAgents l) [] w) as Hr.
  split.
  - intros H. rewrite H in Hr. apply runs_continue in Hr.
    eapply Forall_impl; [exact Hr |]. intros ev. apply passesOn_quiet.
  - intros Hall. destruct Hr as [[_ ->] | (pre & ev & Hevs & _ & Hv & _)];
      [done |].
    rewrite Hevs in Hall. apply Forall_app in Hall as [_ Hall].
    apply Forall_cons in Hall as [Hall _].
    apply passesOn_quiet in Hall. congruence.
Qed.

(** X12: the pass makes no call at all exactly when the parent declares no
    node agent; it then returns a nil result and a nil error and leaves
    the world as it found it. *)
Theorem no_entries_no_calls l w :
  ((Reconciler_Reconcile GroupVersionKindOf Merge resource
      ReconcileResource l w).2 = [] ↔ NodeAgents l = []) ∧
  (NodeAgents l = [] →
   Reconciler_Reconcile GroupVersionKindOf Merge resource
     ReconcileResource l w = ((None, None), [], w, [])).
Proof.
  unfold Reconciler_Reconcile. split; [split |].
  - apply reconcileNodeAgents_silent.
  - by intros ->.
  - by intros ->.
Qed.

Lemma reconcileNodeAgents_invoked l todo seen w :
  invoked (top l seen todo w).2
    `prefix_of` concat (replicate (length todo) factories) ∧
  ((top l seen todo w).1.1.1 = (None, None) →
   invoked (top l seen todo w).2 = concat (replicate (length todo) factories) ∧
   length (mergeCalls (top l seen todo w).2) = (2 * length todo)%nat ∧
   length (applied (top l seen todo w).2)
   = (length factories * length todo)%nat).
Proof.
  revert seen w. induction todo as [|a rest IH]; intros seen w.
  - split; [done |]. intros _. cbn. split; [done |]. split; [done | lia].
  - entry a w; try instance_more; cbn [fst snd length replicate concat] in *.
    all: rewrite ?invoked_merge.
    all: try (split; [apply prefix_nil | intros [=]]; fail).
    all: try (split; [by apply prefix_app_r, Hinv | intros [=]]; fail).
    all: specialize (IH (seen ++ [a2]) w1);
      destruct (top l (seen ++ [a2]) rest w1) as [[[out agents] w2] evs'];
      cbn [fst snd] in *;
      destruct Hinv as [_ Hinv]; destruct (Hinv eq_refl) as [Hi Ha];
      destruct IH as [IH1 IH2];
      rewrite !invoked_merge, invoked_app, Hi; split;
      [ by apply prefix_app
      | intros Hout; destruct (IH2 Hout) as (-> & Hm & Hap);
        split; [done |];
        rewrite !mergeCalls_merge, mergeCalls_app, Hnm, !applied_merge,
          applied_app, length_app, Ha, Hap; cbn; split; lia ].
Qed.

(** X6: the top-level pass invokes the factories entry by entry, the ten of
    an entry in their order before any of the next entry; a pass that
    returns a nil result and a nil error has merged every entry twice,
    invoked the ten factories once per entry and applied every object
    built. *)
Theorem complete_pass_visits_everything l w :
  invoked (Reconcile l w).2
    `prefix_of` concat (replicate (length (NodeAgents l)) factories) ∧
  ((Reconcile l w).1.1.1 = (None, None) →
   invoked (Reconcile l w).2
   = concat (replicate (length (NodeAgents l)) factories) ∧
   length (mergeCalls (Reconcile l w).2) = (2 * length (NodeAgents l))%nat ∧
   length (applied (Reconcile l w).2) = (10 * length (NodeAgents l))%nat).
Proof. apply reconcileNodeAgents_invoked. Qed.

End MoreTopFacts.

(** ** The parent resource during and after the pass *)

Section ParentFacts.
Context {World Object DesiredState Result GroupVersionKind : Type}.
Local Abbreviation error := (error GroupVersionKind).
Local Abbreviation Event := (@Event Object DesiredState Result GroupVersionKind).
Import v1beta1.
Variable GroupVersionKindOf : Object → GroupVersionKind.
Variable Merge : NodeAgent → NodeAgent → NodeAgent * option error.
Variable resource :
  Factory → nodeAgentInstance → World →
  (option Object * DesiredState * option error) * World.
Variable ReconcileResource :
  Object → DesiredState → World → (option Result * option error) * World.

Local Abbreviation top :=
  (reconcileNodeAgents GroupVersionKindOf Merge resource ReconcileResource).
Local Abbreviation Reconcile :=
  (Reconciler_Reconcile GroupVersionKindOf Merge resource ReconcileResource).

Lemma slot_ok_here calls a a' rest seen j :
  (calls = [] → a' = a) →
  (∀ c, calls = [c] → c.2 = a') →
  (∀ c1 c2, calls = [c1; c2] → c2.2 = a') →
  (length calls ≤ 2)%nat →
  slot_ok calls (seen ++ a' :: rest) (a :: rest) (length seen) j.
Proof.
  intros H0 H1 H2 Hlen. unfold slot_ok.
  destruct j as [|j].
  - rewrite Nat.add_0_r, list_lookup_middle by done.
    destruct calls as [|c1 [|c2 [|? ?]]]; cbn in *; try lia.
    + split; [intros ? ? ? [=] |]. split; [intros ? ? ? [=] |].
      intros _. by rewrite (H0 eq_refl).
    + split; [intros ? ? ? [=] |]. split; [| lia].
      intros ? ? ? [= ->] _. f_equal. symmetry. apply (H1 _ eq_refl).
    + split; [| split; [intros ? ? ? _ [=] | lia]].
      intros ? ? ? [= ->]. f_equal. symmetry. apply (H2 _ _ eq_refl).
  - replace (2 * S j)%nat with (S (S (2 * j))) by lia.
    assert (Hnone : ∀ k, calls !! S (S k) = None).
    { intros k. apply lookup_ge_None. lia. }
    rewrite !Hnone. repeat split; try done.
    intros _. rewrite lookup_app_r by lia.
    replace (length seen + S j - length seen)%nat with (S j) by lia. done.
Qed.

Lemma mergeCalls_nil : mergeCalls ([] : list Event) = [].
Proof. reflexivity. Qed.

(** The entries as the pass leaves them, slot by slot. *)
Lemma reconcileNodeAgents_slots l todo seen w :
  length (top l seen todo w).1.1.2 = (length seen + length todo)%nat ∧
  take (length seen) (top l seen todo w).1.1.2 = seen ∧
  ∀ j, slot_ok (mergeCalls (top l seen todo w).2)
                (top l seen todo w).1.1.2 todo (length seen) j.
Proof.
  revert seen w. induction todo as [|a rest IH]; intros seen w.
  - cbn. rewrite Nat.add_0_r, firstn_all. split; [done |]. split; [done |].
    intros j. unfold slot_ok. rewrite !lookup_nil.
    repeat split; try done. intros _. apply lookup_ge_None. lia.
  - entry a w; cbn [fst snd] in *.
    all: try (split; [rewrite !length_app; cbn [length]; lia |];
              split; [by rewrite take_app_length |];
              intros j; rewrite ?mergeCalls_merge, ?Hnm, ?mergeCalls_nil;
              apply slot_ok_here;
              [ intros; by simplify_eq | intros; by simplify_eq
              | intros; by simplify_eq | cbn [length]; lia ]).
    all: specialize (IH (seen ++ [a2]) w1);
      destruct (top l (seen ++ [a2]) rest w1) as [[[out agents] w2] evs'];
      cbn [fst snd] in *;
      destruct IH as (IHlen & IHtake & IHslot);
      rewrite length_app in IHlen, IHtake, IHslot; cbn [length] in *.
    all: assert (Hseen : take (length seen) agents = seen)
      by (replace (length seen) with (length seen `min` (length seen + 1))%nat
            at 1 by lia;
          rewrite <- take_take, IHtake; apply take_app_length).
    all: assert (Ha2 : agents !! length seen = Some a2)
      by (rewrite <- (lookup_take_lt agents (length seen + 1)) by lia;
          rewrite IHtake; by apply list_lookup_middle).
    all: split; [cbn; lia |]; split; [done |].
    all: intros j; rewrite !mergeCalls_merge, mergeCalls_app, Hnm;
      cbn [app]; unfold slot_ok; destruct j as [|j].
    all: try (rewrite Nat.add_0_r, Nat.mul_0_r;
              cbn [lookup list_lookup length];
              split; [intros ? ? ? ?; by simplify_eq |];
              split; [intros ? ? ? ? ?; by simplify_eq | intros; lia]).
    all: replace (2 * S j)%nat with (S (S (2 * j))) by lia;
      cbn [lookup list_lookup length];
      replace (length seen + S j)%nat with (length seen + 1 + j)%nat by lia;
      destruct (IHslot j) as (I1 & I2 & I3);
      repeat split; [apply I1 | apply I2 | intros; apply I3; lia].
Qed.

(** X7: the pass neither adds nor drops an entry of the parent, and an
    entry for which no merge call was made is as declared. *)
Theorem entries_never_added_or_dropped l w i :
  length (Reconcile l w).1.1.2 = length (NodeAgents l) ∧
  ((length (mergeCalls (Reconcile l w).2) ≤ 2 * i)%nat →
   (Reconcile l w).1.1.2 !! i = NodeAgents l !! i).
Proof.
  unfold Reconciler_Reconcile.
  destruct (reconcileNodeAgents_slots l (NodeAgents l) [] w)
    as (Hlen & _ & Hslot).
  split; [exact Hlen |]. destruct (Hslot i) as (_ & _ & H3). exact H3.
Qed.

(** X8: the merges are done in place: after the pass the parent holds, for
    every entry visited, what the last merge call made for it returned,
    the platform merge when there was one and the Base merge otherwise. *)
Theorem parent_holds_merge_results l w j :
  (∀ d P d', mergeCalls (Reconcile l w).2 !! S (2 * j) = Some (d, P, d') →
             (Reconcile l w).1.1.2 !! j = Some d') ∧
  (∀ a P a1, mergeCalls (Reconcile l w).2 !! (2 * j)%nat = Some (a, P, a1) →
             mergeCalls (Reconcile l w).2 !! S (2 * j) = None →
             (Reconcile l w).1.1.2 !! j = Some a1).
Proof.
  unfold Reconciler_Reconcile.
  destruct (reconcileNodeAgents_slots l (NodeAgents l) [] w)
    as (_ & _ & Hslot).
  destruct (Hslot j) as (H1 & H2 & _). split; [exact H1 | exact H2].
Qed.

End ParentFacts.

(** ** What the factories are given *)

Section GivenToFactories.
Context {World Object DesiredState Result GroupVersionKind : Type}.
Local Abbreviation error := (error GroupVersionKind).
Local Abbreviation Event := (@Event Object DesiredState Result GroupVersionKind).
Import v1beta1.
Variable GroupVersionKindOf : Object → GroupVersionKind.
Variable Merge : NodeAgent → NodeAgent → NodeAgent * option error.
Variable resource :
  Factory → nodeAgentInstance → World →
  (option Object * DesiredState * option error) * World.
Variable ReconcileResource :
  Object → DesiredState → World → (option Result * option error) * World.

Local Abbreviation top :=
  (reconcileNodeAgents GroupVersionKindOf Merge resource ReconcileResource).
Local Abbreviation Reconcile :=
  (Reconciler_Reconcile GroupVersionKindOf Merge resource ReconcileResource).

Lemma merged_just_before a a1 a2 P lg (evsI p q : list Event) ev n :
  evsI = p ++ ev :: q →
  Forall (λ ev, instanceOf ev = Some {| nodeAgent := a2; logging := lg |}) evsI →
  mergeCalls evsI = [] →
  instanceOf ev = Some n →
  n = {| nodeAgent := a2; logging := lg |} ∧
  last (mergeCalls (MergeCall a NodeAgentFluentbitDefaults a1 None
                      :: MergeCall a1 P a2 None :: p))
  = Some (a1, P, a2).
Proof.
  intros -> Hof Hnm Hn.
  apply Forall_app in Hof as [_ Hof]. apply Forall_cons in Hof as [Hof _].
  split; [congruence |].
  rewrite mergeCalls_app in Hnm. apply app_eq_nil in Hnm as [Hp _].
  by rewrite !mergeCalls_merge, Hp.
Qed.

(** The merge call most recently made before a call for an instance is the
    platform merge that returned the entry of that instance. *)
Lemma reconcileNodeAgents_merged_first l todo seen w pre ev post n :
  (top l seen todo w).2 = pre ++ ev :: post → instanceOf ev = Some n →
  ∃ d P, last (mergeCalls pre) = Some (d, P, nodeAgent n) ∧
         (Type_ d = "windows" → P = NodeAgentFluentbitWindowsDefaults) ∧
         (Type_ d ≠ "windows" → P = NodeAgentFluentbitLinuxDefaults).
Proof.
  revert seen w pre. induction todo as [|a rest IH]; intros seen w pre.
  - by destruct pre.
  - entry a w; cbn [fst snd] in *; intros Hevs Hn.
    all: try (destruct pre as [|? [|? [|? ?]]]; cbn [app] in Hevs;
              simplify_eq; by cbn in Hn).
    all: try (specialize (IH (seen ++ [a2]) w1);
              destruct (top l (seen ++ [a2]) rest w1)
                as [[[out agents] w2] evs']; cbn [fst snd] in * ).
    all: destruct pre as [|? [|? p]]; cbn [app] in Hevs;
      try (simplify_eq; by cbn in Hn);
      pose proof (f_equal (take 2) Hevs) as Hhead;
      apply (f_equal (drop 2)) in Hevs; cbn [take drop] in Hhead, Hevs;
      rewrite !drop_0 in Hevs; injection Hhead as <- <-.
    all: try (lazymatch type of HM2 with
              | Merge _ ?P = _ =>
                destruct (merged_just_before a a1 a2 P _ _ _ _ _ _
                            Hevs Hof Hnm Hn) as [-> ->]
              end;
              eexists _, _; split; [reflexivity |]; split; by intros).
    all: symmetry in Hevs; apply split_at in Hevs
           as [(q & Hq & _) | (p' & -> & Hp')].
    all: try (lazymatch type of HM2 with
              | Merge _ ?P = _ =>
                destruct (merged_just_before a a1 a2 P _ _ _ _ _ _
                            Hq Hof Hnm Hn) as [-> ->]
              end;
              eexists _, _; split; [reflexivity |]; split; by intros).
    all: destruct (IH p' Hp' Hn) as (d & P & Hlast & HW & HL);
      exists d, P; split; [| done];
      rewrite !mergeCalls_merge, mergeCalls_app, Hnm; cbn [app];
      by rewrite !last_cons, Hlast.
Qed.

Lemma take_S_middle {A} (xs : list A) x ys :
  take (S (length xs)) (xs ++ x :: ys) = xs ++ [x].
Proof.
  rewrite take_app_ge by lia.
  by replace (S (length xs) - length xs)%nat with 1%nat by lia.
Qed.

(** The parent as an instance finds it: the entries up to its own as the
    pass leaves them, the later ones as declared. *)
Lemma reconcileNodeAgents_instances l todo seen w :
  Forall (λ ev, ∀ n, instanceOf ev = Some n →
            LoggingName (logging n) = LoggingName l ∧
            ∃ i, (length seen ≤ i < length seen + length todo)%nat ∧
                 (top l seen todo w).1.1.2 !! i = Some (nodeAgent n) ∧
                 NodeAgents (logging n)
                 = take (S i) (top l seen todo w).1.1.2
                   ++ drop (S i) (seen ++ todo))
         (top l seen todo w).2.
Proof.
  revert seen w. induction todo as [|a rest IH]; intros seen w.
  - constructor.
  - assert (Hhere : ∀ agents a2 (evsI : list Event),
      Forall (λ ev, instanceOf ev = Some
                {| nodeAgent := a2;
                   logging := withNodeAgents l (seen ++ a2 :: rest) |}) evsI →
      take (S (length seen)) agents = seen ++ [a2] →
      Forall (λ ev, ∀ n, instanceOf ev = Some n →
            LoggingName (logging n) = LoggingName l ∧
            ∃ i, (length seen ≤ i < length seen + length (a :: rest))%nat ∧
                 agents !! i = Some (nodeAgent n) ∧
                 NodeAgents (logging n)
                 = take (S i) agents ++ drop (S i) (seen ++ a :: rest))
        evsI).
    { intros agents a2 evsI Hof Htake.
      eapply Forall_impl; [exact Hof |]. intros ev Hev n Hn.
      assert (n = {| nodeAgent := a2;
                     logging := withNodeAgents l (seen ++ a2 :: rest) |})
        as -> by congruence.
      split; [done |]. exists (length seen). cbn [length].
      split; [lia |]. split.
      - rewrite <- (lookup_take_lt agents (S (length seen))) by lia.
        rewrite Htake. by apply list_lookup_middle.
      - rewrite Htake. cbn [nodeAgent logging withNodeAgents NodeAgents].
        rewrite drop_app_ge, <- app_assoc by lia.
        by replace (S (length seen) - length seen)%nat with 1%nat by lia. }
    pose proof (reconcileNodeAgents_slots GroupVersionKindOf Merge resource
                  ReconcileResource l (a :: rest) seen w) as (_ & Hseen & _).
    revert Hseen.
    entry a w; cbn [fst snd] in *; intros Hseen.
    all: try (repeat (apply Forall_cons; split;
                      [intros n Hn; by cbn in Hn |]); by apply Forall_nil).
    all: try (do 2 (apply Forall_cons; split; [intros n Hn; by cbn in Hn |]);
              eapply Hhere; [exact Hof | apply take_S_middle]).
    all: pose proof (reconcileNodeAgents_slots GroupVersionKindOf Merge
                       resource ReconcileResource l rest (seen ++ [a2]) w1)
           as (_ & Htake & _);
      specialize (IH (seen ++ [a2]) w1);
      destruct (top l (seen ++ [a2]) rest w1) as [[[out agents] w2] evs'];
      cbn [fst snd] in *;
      rewrite length_app in Htake, IH; cbn [length] in Htake, IH;
      replace (length seen + 1)%nat with (S (length seen)) in Htake, IH by lia.
    all: do 2 (apply Forall_cons; split; [intros n Hn; by cbn in Hn |]);
      apply Forall_app; split; [eapply Hhere; [exact Hof | exact Htake] |];
      eapply Forall_impl; [exact IH |];
      intros ev Hev n Hn; destruct (Hev n Hn) as (HL & i & Hi & Hlook & Hlist);
      split; [done |]; exists i; cbn [length];
      split; [lia |]; split; [done |];
      rewrite Hlist, <- app_assoc; cbn [app]; f_equal;
      apply drop_past_middle; lia.
Qed.

(** X9: an instance is handed the parent with the merges done so far in
    it: the parent's name is unchanged, the instance's own entry sits in
    the parent's list, the entries up to it are as the pass leaves them
    and the entries after it are as declared. *)
Theorem instance_sees_its_parent l w ev n :
  ev ∈ (Reconcile l w).2 → instanceOf ev = Some n →
  LoggingName (logging n) = LoggingName l ∧
  ∃ i, (i < length (NodeAgents l))%nat ∧
       (Reconcile l w).1.1.2 !! i = Some (nodeAgent n) ∧
       NodeAgents (logging n)
       = take (S i) (Reconcile l w).1.1.2 ++ drop (S i) (NodeAgents l).
Proof.
  intros Hin Hn. unfold Reconciler_Reconcile in *.
  pose proof (reconcileNodeAgents_instances l (NodeAgents l) [] w) as Hall.
  rewrite Forall_forall in Hall.
  destruct (Hall ev Hin n Hn) as (HL & i & Hi & Hlook & Hlist).
  split; [done |]. exists i. cbn [length] in Hi. split; [lia |]. done.
Qed.

(** X10: every factory call and every apply call is made for an instance
    whose entry is what the platform merge, the merge call most recently
    made before it, returned; that merge took the Windows profile when the
    entry's type was "windows" and the Linux profile otherwise. *)
Theorem factories_see_the_merged_entry l w pre ev post n :
  (Reconcile l w).2 = pre ++ ev :: post → instanceOf ev = Some n →
  ∃ d P, last (mergeCalls pre) = Some (d, P, nodeAgent n) ∧
         (Type_ d = "windows" → P = NodeAgentFluentbitWindowsDefaults) ∧
         (Type_ d ≠ "windows" → P = NodeAgentFluentbitLinuxDefaults).
Proof. apply reconcileNodeAgents_merged_first. Qed.

End GivenToFactories.

(** ** The further statements at work on the samples *)

Section MoreSamplesAtWork.
Import v1beta1 Sample MoreSamples.

(** The first apply call of the first of two entries asks for a requeue:
    the second entry is not reached. *)
Lemma requeue_stops_every_entry_witness :
  let run := Reconciler_Reconcile kindOf mergo.Merge build (requeueAt 1)
               twoEntries 0%nat in
  let a1 := mergo.mergeNodeAgent (entry "a" "") NodeAgentFluentbitDefaults in
  let pre := [ MergeCall (entry "a" "") NodeAgentFluentbitDefaults a1 None;
               MergeCall a1 NodeAgentFluentbitLinuxDefaults
                 (nodeAgent firstOfTwo) None;
               built firstOfTwo serviceAccount "ServiceAccount" ] in
  run.2 = pre ++ ApplyCall firstOfTwo "ServiceAccount" true (Some 30%nat) None
                 :: [] ∧
  run.1.1.1 = (Some 30%nat, None) ∧
  run.1.1.2 !! 1%nat = Some (entry "b" "windows").
Proof.
  intros run a1 pre.
  assert (H : run.2 = pre ++ ApplyCall firstOfTwo "ServiceAccount" true
                               (Some 30%nat) None :: [])
    by (vm_compute; reflexivity).
  destruct (requeue_stops_every_entry kindOf mergo.Merge build (requeueAt 1)
              twoEntries 0%nat pre firstOfTwo "ServiceAccount" true 30%nat
              [] H) as (_ & Hout & _).
  split; [exact H |]. split; [exact Hout |]. vm_compute. reflexivity.
Defined.

(** The apply primitive hands back a requeue result and an error at once:
    the pass returns the error alone. *)
Lemma apply_error_drops_the_result_witness :
  let run := nodeAgentInstance_Reconcile kindOf build requeueAndFail
               anInstance 0%nat in
  let pre := [ built anInstance serviceAccount "ServiceAccount" ] in
  run.2 = pre ++ ApplyCall anInstance "ServiceAccount" true (Some 30%nat)
                   (Some (Foreign "conflict")) :: [] ∧
  run.1.1 =
    (None,
     Some (WrapWithDetails (Foreign "conflict") "failed to reconcile resource"
             "resource" (DetailKind "ServiceAccount"))).
Proof.
  intros run pre.
  assert (H : run.2 = pre ++ ApplyCall anInstance "ServiceAccount" true
                               (Some 30%nat) (Some (Foreign "conflict"))
                        :: [])
    by (vm_compute; reflexivity).
  destruct (apply_error_drops_the_result kindOf build requeueAndFail
              anInstance 0%nat pre "ServiceAccount" true (Some 30%nat)
              (Foreign "conflict") [] H) as (_ & Hout).
  split; [exact H | exact Hout].
Defined.

(** The first factory hands back an object and an error at once: the
    object is not applied. *)
Lemma construction_error_aborts_witness :
  let run := nodeAgentInstance_Reconcile kindOf buildWithError settle
               anInstance 0%nat in
  run.2 = [] ++ FactoryCall anInstance serviceAccount (Some "ServiceAccount")
                  true (Some (Foreign "cannot build")) :: [] ∧
  run.1.1 =
    (None,
     Some (WrapIf (Foreign "cannot build") "failed to create desired object")) ∧
  applied run.2 = [] ∧
  invoked run.2 = [serviceAccount].
Proof.
  intros run.
  assert (H : run.2 = [] ++ FactoryCall anInstance serviceAccount
                              (Some "ServiceAccount") true
                              (Some (Foreign "cannot build")) :: [])
    by (vm_compute; reflexivity).
  destruct (construction_error_aborts kindOf buildWithError settle
              anInstance 0%nat [] serviceAccount (Some "ServiceAccount") true
              (Foreign "cannot build") [] H) as (_ & Hout & Happ & Hinv).
  split; [exact H |]. split; [exact Hout |].
  split; [exact (eq_trans Happ eq_refl) | exact (eq_trans Hinv eq_refl)].
Defined.

(** The first factory call of a pass over two entries is made for the
    instance of the first entry, which finds its merged entry in its
    parent. *)
Lemma instance_sees_its_parent_witness :
  let run := Reconciler_Reconcile kindOf mergo.Merge build settle
               twoEntries 0%nat in
  let ev := built firstOfTwo serviceAccount "ServiceAccount" in
  (run.2 !! 2%nat = Some ev ∧ instanceOf ev = Some firstOfTwo) ∧
  LoggingName (logging firstOfTwo) = LoggingName twoEntries ∧
  NodeAgents (logging firstOfTwo) !! 0%nat = Some (nodeAgent firstOfTwo).
Proof.
  intros run ev.
  assert (H : run.2 !! 2%nat = Some ev) by (vm_compute; reflexivity).
  assert (Hn : instanceOf ev = Some firstOfTwo) by reflexivity.
  destruct (instance_sees_its_parent kindOf mergo.Merge build settle
              twoEntries 0%nat ev firstOfTwo
              (list_elem_of_lookup_2 _ _ _ H) Hn) as (HL & _).
  split; [done |]. split; [exact HL | reflexivity].
Defined.

(** The first factory call of a pass comes right after the two merges of
    the first entry. *)
Lemma factories_see_the_merged_entry_witness :
  let run := Reconciler_Reconcile kindOf mergo.Merge build settle
               twoEntries 0%nat in
  let a1 := mergo.mergeNodeAgent (entry "a" "") NodeAgentFluentbitDefaults in
  let pre := [ MergeCall (entry "a" "") NodeAgentFluentbitDefaults a1 None;
               MergeCall a1 NodeAgentFluentbitLinuxDefaults
                 (nodeAgent firstOfTwo) None ] in
  let ev := built firstOfTwo serviceAccount "ServiceAccount" in
  (run.2 = pre ++ ev :: drop 3 run.2 ∧ instanceOf ev = Some firstOfTwo) ∧
  ∃ d P, last (mergeCalls pre) = Some (d, P, nodeAgent firstOfTwo).
Proof.
  intros run a1 pre ev.
  assert (H : run.2 = pre ++ ev :: drop 3 run.2) by (vm_compute; reflexivity).
  assert (Hn : instanceOf ev = Some firstOfTwo) by reflexivity.
  destruct (factories_see_the_merged_entry kindOf mergo.Merge build settle
              twoEntries 0%nat pre ev (drop 3 run.2) firstOfTwo H Hn)
    as (d & P & Hlast & _).
  split; [done |]. by exists d, P.
Defined.

(** The first apply call of an instance pass is made on the object the
    first factory built. *)
Lemma apply_gets_what_was_built_witness :
  let run := nodeAgentInstance_Reconcile kindOf build settle anInstance
               0%nat in
  run.2 = [built anInstance serviceAccount "ServiceAccount"]
          ++ settled anInstance "ServiceAccount" :: drop 2 run.2 ∧
  ∃ pre' f,
    [built anInstance serviceAccount "ServiceAccount"]
    = pre' ++ [FactoryCall anInstance f (Some "ServiceAccount") true None].
Proof.
  intros run.
  assert (H : run.2 = [built anInstance serviceAccount "ServiceAccount"]
                      ++ settled anInstance "ServiceAccount" :: drop 2 run.2)
    by (vm_compute; reflexivity).
  destruct (apply_gets_what_was_built kindOf build settle anInstance 0%nat
              [built anInstance serviceAccount "ServiceAccount"]
              anInstance "ServiceAccount" true None None (drop 2 run.2) H)
    as (pre' & f & Hpre & _).
  split; [exact H |]. by exists pre', f.
Defined.

(** C2 as the claim words it fails below a set pointer.  The entry
    [onlyLogLevel] sets its log level and leaves [Flush] unset; Base sets
    [Flush] to 1; after the Base merge and the Linux merge of a pass the
    entry has [Flush] 0, not Base's value. *)
Lemma unset_Flush_survives_the_pass :
  ¬ (∀ S, flushOf S = Some 0 →
          flushOf <$>
            (Reconciler_Reconcile kindOf mergo.Merge build settle
               (parent [S]) 0%nat).1.1.2
          = [flushOf NodeAgentFluentbitDefaults]).
Proof.
  intros Hclaim. specialize (Hclaim onlyLogLevel eq_refl).
  vm_compute in Hclaim. discriminate Hclaim.
Qed.

(** C3 as the claim words it fails below a set pointer.  [Flush] is unset
    in [onlyLogLevel] and set in the Base profile, and one merge of the
    Base profile into the entry leaves it unset. *)
Lemma unset_Flush_survives_the_merge :
  ¬ (∀ S P, flushOf S = Some 0 → flushOf P = Some 1 →
            flushOf (@mergo.Merge err S P).1 = flushOf P).
Proof.
  intros Hclaim.
  specialize (Hclaim onlyLogLevel NodeAgentFluentbitDefaults eq_refl eq_refl).
  vm_compute in Hclaim. discriminate Hclaim.
Qed.

(** The Windows entry of [twoEntries] leaves its [FluentbitSpec] unset and
    is visited by the pass: it ends with [Flush] 1, where the Windows
    profile says 2. *)
Lemma base_profile_wins_witness :
  let run := Reconciler_Reconcile kindOf mergo.Merge build settle
               twoEntries 0%nat in
  NodeAgents twoEntries !! 1%nat = Some (entry "b" "windows") ∧
  (2 * 1 < length (mergeCalls run.2))%nat ∧
  flushOf <$> run.1.1.2 !! 1%nat = Some (Some 1) ∧
  flushOf NodeAgentFluentbitWindowsDefaults = Some 2.
Proof.
  intros run.
  pose (S' := mergedWith NodeAgentFluentbitWindowsDefaults
                (entry "b" "windows")).
  assert (HS : NodeAgents twoEntries !! 1%nat = Some (entry "b" "windows"))
    by reflexivity.
  assert (HS' : run.1.1.2 !! 1%nat = Some S') by (vm_compute; reflexivity).
  assert (Hi : (2 * 1 < length (mergeCalls run.2))%nat)
    by (vm_compute; lia).
  destruct (base_profile_wins kindOf build settle)
    as (_ & _ & _ & Hnil & _ & _ & _ & _ & Hwin).
  destruct (Hnil twoEntries 0%nat 1%nat _ S' HS HS' Hi eq_refl)
    as [_ Hflush].
  split; [exact HS |]. split; [exact Hi |]. split; [| exact Hwin].
  exact (eq_trans (f_equal (fmap flushOf) HS') (f_equal Some Hflush)).
Defined.

(** The Base profile merged into an empty entry over [profileStore]: the
    entry gets the address of a new cell with the profile's content, and
    the profile reads the same after a write to that cell. *)
Lemma merge_fills_unset_fields_witness :
  let m := store.Merge profileStore emptyAt profileAt in
  ∃ q, store.FluentbitSpec m.2 = Some q ∧ q ≠ 1%positive ∧
       m.1 !! q = Some profileCell ∧
       store.view (<[q := zero.NodeAgentFluentbit]> m.1) profileAt
       = Some NodeAgentFluentbitDefaults.
Proof.
  intros m.
  destruct (merge_fills_unset_fields kindOf build settle)
    as (_ & _ & _ & _ & Hfresh & _).
  destruct (Hfresh profileStore emptyAt profileAt 1%positive profileCell
              eq_refl eq_refl eq_refl)
    as (q & Hq & Hne & _ & Hcell & Hw).
  exists q. split; [exact Hq |]. split; [exact Hne |].
  split; [exact Hcell |].
  exact (proj2 (Hw zero.NodeAgentFluentbit profileAt
                  NodeAgentFluentbitDefaults eq_refl)).
Defined.

(** The entry [onlyLogLevel] after a pass: the log level it set, and
    nothing of Base below its [FluentbitSpec]. *)
Example onlyLogLevel_after_a_pass :
  (λ a, (flushOf a, logLevelOf a, storagePathOf a, imagesOf a)) <$>
    (Reconciler_Reconcile kindOf mergo.Merge build settle
       (parent [onlyLogLevel]) 0%nat).1.1.2
  = [ (Some 0, Some "debug", Some "", None) ].
Proof. vm_compute. reflexivity. Qed.

(** The Base profile merged into an empty entry over a store: the entry
    gets a cell of its own that reads as the profile's, and overwriting
    that cell leaves the profile as it was. *)
Example merged_entry_has_a_cell_of_its_own :
  let m := store.Merge profileStore emptyAt profileAt in
  let h' := <[2%positive := zero.NodeAgentFluentbit]> m.1 in
  store.view profileStore profileAt = Some NodeAgentFluentbitDefaults ∧
  store.FluentbitSpec m.2 = Some 2%positive ∧
  store.view m.1 m.2 = Some NodeAgentFluentbitDefaults ∧
  flushOf <$> store.view h' m.2 = Some (Some 0) ∧
  store.view h' profileAt = Some NodeAgentFluentbitDefaults.
Proof. vm_compute. repeat split; reflexivity. Qed.

End MoreSamplesAtWork.
